(** * Maze runner: wall-following exploration and loop removal

    A shallow embedding of [runner.py] and of the class [Maze] of
    [maze.py].  Python integers are [Z], orientations and action codes
    are strings as in the source, the two wall sets are [gset (Z * Z)],
    the [visited] dictionary of the path simplifier is a [gmap].  The
    runner is a dictionary mutated in place and the maze is an object
    mutated by its methods: both are threaded through a state monad
    whose computations may raise, the state reached at the raise being
    kept, as after a Python exception. *)

From stdpp Require Import gmap strings list pretty.

Open Scope string_scope.
Open Scope Z_scope.
Open Scope list_scope.

(** ** Exceptions and the state-and-exception monad *)

(** The exceptions the modelled code can raise.  [ValueError] carries its
    message: [go_straight] raises it with no message, [tuple.index] with
    the interpreter's. *)
Inductive exn : Type :=
  | ValueError (msg : string)
  | IndexError (msg : string)
  | AttributeError (msg : string).

Inductive result (A : Type) : Type :=
  | Ok (a : A)
  | Raise (e : exn).
Arguments Ok {A} a.
Arguments Raise {A} e.

(** A computation over a mutable state [S]: the final state is returned
    also when the computation raises. *)
Definition M (S A : Type) : Type := S → result A * S.

Definition ret {S A} (a : A) : M S A := λ s, (Ok a, s).
Definition raise {S A} (e : exn) : M S A := λ s, (Raise e, s).
Definition bind {S A B} (k : A → M S B) (c : M S A) : M S B :=
  λ s, match c s with
       | (Ok a, s') => k a s'
       | (Raise e, s') => (Raise e, s')
       end.
Global Instance M_ret {S} : MRet (M S) := @ret S.
Global Instance M_bind {S} : MBind (M S) := @bind S.
Global Instance result_ret : MRet result := @Ok.
Global Instance result_bind : MBind result := λ A B k c,
  match c with
  | Ok a => k a
  | Raise e => Raise e
  end.
Definition get {S} : M S S := λ s, (Ok s, s).
Definition modify {S} (f : S → S) : M S unit := λ s, (Ok tt, f s).
Definition lift_result {S A} (r : result A) : M S A := λ s, (r, s).

(** ** Python sequence primitives used by the source *)

(** [t.index(x)]: position of the first element equal to [x]. *)
Fixpoint tuple_index (t : list string) (x : string) : result Z :=
  match t with
  | [] => Raise (ValueError "tuple.index(x): x not in tuple")
  | y :: t' =>
      if decide (y = x) then Ok 0
      else match tuple_index t' x with
           | Ok i => Ok (i + 1)
           | Raise e => Raise e
           end
  end.

(** [t[i]]: a negative index counts from the end. *)
Definition getitem {A} (t : list A) (i : Z) : result A :=
  let j := if decide (i < 0) then i + Z.of_nat (length t) else i in
  if decide (j < 0) then Raise (IndexError "tuple index out of range")
  else match t !! Z.to_nat j with
       | Some a => Ok a
       | None => Raise (IndexError "tuple index out of range")
       end.

(** [l[:stop]]: a negative [stop] counts from the end, and the bound is
    clipped to the length of the list. *)
Definition slice_to {A} (l : list A) (stop : Z) : list A :=
  let j := if decide (stop < 0) then Z.max 0 (stop + Z.of_nat (length l))
           else stop in
  take (Z.to_nat j) l.

(** [len(l)] *)
Definition len {A} (l : list A) : Z := Z.of_nat (length l).

(** ** runner.py *)

Module Runner.

(** [Runner = TypedDict("Runner", {"x": int, "y": int, "orientation": str})] *)
Record Runner : Type := mkRunner {
  x : Z;
  y : Z;
  orientation : string
}.

Definition create_runner (x0 y0 : Z) (o : string) : Runner :=
  {| x := x0; y := y0; orientation := o |}.

Definition get_x (r : Runner) : Z := x r.
Definition get_y (r : Runner) : Z := y r.
Definition get_orientation (r : Runner) : string := orientation r.

Definition orientations : list string := ["N"; "E"; "S"; "W"].

(** [(orientations[i - 1], current, orientations[(i + 1) % 4])] where
    [i = orientations.index(current)]. *)
Definition orientation_options (r : Runner) : result (string * string * string) :=
  let current_orientation := get_orientation r in
  match tuple_index orientations current_orientation with
  | Raise e => Raise e
  | Ok current_orientation_index =>
      match getitem orientations (current_orientation_index - 1) with
      | Raise e => Raise e
      | Ok l =>
          match getitem orientations
                  ((current_orientation_index + 1) `mod` len orientations) with
          | Raise e => Raise e
          | Ok rt => Ok (l, current_orientation, rt)
          end
      end
  end.

Definition set_orientation (o : string) (r : Runner) : Runner :=
  {| x := x r; y := y r; orientation := o |}.
Definition set_x (x0 : Z) (r : Runner) : Runner :=
  {| x := x0; y := y r; orientation := orientation r |}.
Definition set_y (y0 : Z) (r : Runner) : Runner :=
  {| x := x r; y := y0; orientation := orientation r |}.

(** [turn(runner, direction)]: two independent [if]s, so that a
    direction other than ["Left"] and ["Right"] changes nothing. *)
Definition turn (direction : string) : M Runner unit :=
  r ← get;
  new_orientations ← lift_result (orientation_options r);
  (if decide (direction = "Left")
   then modify (set_orientation new_orientations.1.1)
   else ret tt);;
  (if decide (direction = "Right")
   then modify (set_orientation new_orientations.2)
   else ret tt).

(** [forward(runner)]: no branch is taken for an orientation that is
    none of the four letters. *)
Definition forward : M Runner unit :=
  r ← get;
  let orientation := get_orientation r in
  if decide (orientation = "N") then modify (set_y (y r + 1))
  else if decide (orientation = "S") then modify (set_y (y r - 1))
  else if decide (orientation = "E") then modify (set_x (x r + 1))
  else if decide (orientation = "W") then modify (set_x (x r - 1))
  else ret tt.

End Runner.
Export Runner.

(** ** maze.py *)

Module Maze.

Definition coord : Type := Z * Z.

(** The attributes of a [Maze] object.  [render_settings] keeps its two
    flags (save, show); the display duration is a float handed to the
    plotting library only.  [prev_runner] is declared without a value
    by [__init__], hence the [option]. *)
Record Maze : Type := mkMaze {
  _width : Z;
  _height : Z;
  _h_walls : gset coord;
  _v_walls : gset coord;
  _path : list coord;
  _exploration_data : list (string * string * string * string);
  render_settings : bool * bool;
  prev_runner : option coord;
  run_id : string
}.

(** The state a method of [Maze] works on: the maze object and the
    runner dictionary it was handed, both mutable. *)
Definition World : Type := Maze * Runner.

Definition on_runner {A} (c : M Runner A) : M World A :=
  λ w, let '(a, r') := c w.2 in (a, (w.1, r')).
Definition on_maze (f : Maze → Maze) : M World unit :=
  λ w, (Ok tt, (f w.1, w.2)).

(** [range(n)] *)
Definition range (n : Z) : list Z := seqZ 0 n.

(** [s.add(c)] *)
Definition set_add (c : coord) (s : gset coord) : gset coord := {[ c ]} ∪ s.

Definition init (width height : Z) : Maze :=
  let v_walls :=
    foldl (λ s i, set_add (width, i) (set_add (0, i) s)) ∅ (range height) in
  let h_walls :=
    foldl (λ s i, set_add (i, height) (set_add (i, 0) s)) ∅ (range width) in
  {| _width := width;
     _height := height;
     _h_walls := h_walls;
     _v_walls := v_walls;
     _path := [];
     _exploration_data := [("Step", "x-coordinate", "y-coordinate", "Actions")];
     render_settings := (false, false);
     prev_runner := None;
     run_id := "" |}.

Definition width (m : Maze) : Z := _width m.
Definition height (m : Maze) : Z := _height m.
Definition h_walls (m : Maze) : gset coord := _h_walls m.
Definition v_walls (m : Maze) : gset coord := _v_walls m.
Definition path (m : Maze) : list coord := _path m.
Definition exploration_data (m : Maze) := _exploration_data m.

Definition with_h_walls (s : gset coord) (m : Maze) : Maze :=
  {| _width := _width m; _height := _height m;
     _h_walls := s; _v_walls := _v_walls m;
     _path := _path m; _exploration_data := _exploration_data m;
     render_settings := render_settings m; prev_runner := prev_runner m;
     run_id := run_id m |}.
Definition with_v_walls (s : gset coord) (m : Maze) : Maze :=
  {| _width := _width m; _height := _height m;
     _h_walls := _h_walls m; _v_walls := s;
     _path := _path m; _exploration_data := _exploration_data m;
     render_settings := render_settings m; prev_runner := prev_runner m;
     run_id := run_id m |}.
Definition with_path (p : list coord) (m : Maze) : Maze :=
  {| _width := _width m; _height := _height m;
     _h_walls := _h_walls m; _v_walls := _v_walls m;
     _path := p; _exploration_data := _exploration_data m;
     render_settings := render_settings m; prev_runner := prev_runner m;
     run_id := run_id m |}.
Definition with_exploration_data (d : list (string * string * string * string))
    (m : Maze) : Maze :=
  {| _width := _width m; _height := _height m;
     _h_walls := _h_walls m; _v_walls := _v_walls m;
     _path := _path m; _exploration_data := d;
     render_settings := render_settings m; prev_runner := prev_runner m;
     run_id := run_id m |}.
Definition with_prev_runner (c : coord) (m : Maze) : Maze :=
  {| _width := _width m; _height := _height m;
     _h_walls := _h_walls m; _v_walls := _v_walls m;
     _path := _path m; _exploration_data := _exploration_data m;
     render_settings := render_settings m; prev_runner := Some c;
     run_id := run_id m |}.

(** The property setters [path] and [exploration_data]: the assignments
    [m.path = p] and [m.exploration_data = d] put the given list in the
    place of the buffer. *)
Definition path_setter (p : list coord) (m : Maze) : Maze := with_path p m.
Definition exploration_data_setter (d : list (string * string * string * string))
    (m : Maze) : Maze :=
  with_exploration_data d m.

(** [self.path.append(c)] and [self.exploration_data.append(row)] *)
Definition path_append (c : coord) (m : Maze) : Maze :=
  with_path (path m ++ [c]) m.
Definition exploration_data_append (row : string * string * string * string)
    (m : Maze) : Maze :=
  with_exploration_data (exploration_data m ++ [row]) m.

Definition add_horizontal_wall (x_coordinate horizontal_line : Z) (m : Maze) : Maze :=
  if decide ((0 ≤ x_coordinate ∧ x_coordinate < _width m)
             ∧ (1 ≤ horizontal_line ∧ horizontal_line < _height m))
  then with_h_walls (set_add (x_coordinate, horizontal_line) (_h_walls m)) m
  else m.

Definition add_vertical_wall (y_coordinate vertical_line : Z) (m : Maze) : Maze :=
  if decide ((0 ≤ y_coordinate ∧ y_coordinate < _height m)
             ∧ (1 ≤ vertical_line ∧ vertical_line < _width m))
  then with_v_walls (set_add (vertical_line, y_coordinate) (_v_walls m)) m
  else m.

(** [(north, east, south, west)] *)
Definition get_walls (m : Maze) (x_coordinate y_coordinate : Z)
    : bool * bool * bool * bool :=
  let h_walls := h_walls m in
  let v_walls := v_walls m in
  let north := bool_decide ((x_coordinate, y_coordinate + 1) ∈ h_walls) in
  let east := bool_decide ((x_coordinate + 1, y_coordinate) ∈ v_walls) in
  let south := bool_decide ((x_coordinate, y_coordinate) ∈ h_walls) in
  let west := bool_decide ((x_coordinate, y_coordinate) ∈ v_walls) in
  (north, east, south, west).

(** The body of the [if]/[elif] chain of [sense_walls]: [wall_num]
    keeps its previous value when no test succeeds. *)
Definition wall_num_of (orientation : string) (wall_num : Z) : Z :=
  if decide (orientation = "N") then 0
  else if decide (orientation = "S") then 2
  else if decide (orientation = "E") then 1
  else if decide (orientation = "W") then 3
  else wall_num.

(** The [for] loop of [sense_walls] over the three orientations. *)
Fixpoint sense_loop (walls : list bool) (options : list string)
    (wall_num : Z) (sensed_walls : list bool) : result (list bool) :=
  match options with
  | [] => Ok sensed_walls
  | orientation :: options' =>
      let wall_num := wall_num_of orientation wall_num in
      b ← getitem walls wall_num;
      sense_loop walls options' wall_num (sensed_walls ++ [b])
  end.

(** [(left, front, right)] *)
Definition sense_walls (m : Maze) (runner : Runner) : result (bool * bool * bool) :=
  let '(north, east, south, west) := get_walls m (get_x runner) (get_y runner) in
  options ← orientation_options runner;
  sensed_walls ← sense_loop [north; east; south; west]
                   [options.1.1; options.1.2; options.2] 0 [];
  s0 ← getitem sensed_walls 0;
  s1 ← getitem sensed_walls 1;
  s2 ← getitem sensed_walls 2;
  Ok (s0, s1, s2).

Definition go_straight : M World unit :=
  w ← get;
  sensed ← lift_result (sense_walls w.1 w.2);
  if negb sensed.1.2 then on_runner forward
  else raise (ValueError "").

Definition move : M World string :=
  w ← get;
  on_maze (with_prev_runner (get_x w.2, get_y w.2));;
  sensed_walls ← lift_result (sense_walls w.1 w.2);
  if negb sensed_walls.1.1 then
    on_runner (turn "Left");; go_straight;; mret "LF"
  else if negb sensed_walls.1.2 then
    go_straight;; mret "F"
  else if negb sensed_walls.2 then
    on_runner (turn "Right");; go_straight;; mret "RF"
  else
    on_runner (turn "Left");; on_runner (turn "Left");; go_straight;; mret "LLF".

(** [render] draws the maze with matplotlib and writes image files: it
    reads the maze and the runner and assigns to neither, so that on
    the modelled state it is the identity.  Only the calls of [render]
    that return are modelled: what the plotting library or the file
    system may raise ([os.mkdir] on the empty [run_id], [savefig]) is
    not.  [render] is called only when one of the two flags of
    [render_settings] is set; [__init__] sets both to [False] and no
    method assigns them, and what is said below of the exceptions of
    [explore] and [shortest_path] is said of mazes with both flags
    off. *)
Definition render : M World unit := mret tt.

Definition render_if_enabled : M World unit :=
  w ← get;
  if (render_settings w.1).1 || (render_settings w.1).2 then render
  else mret tt.

(** [self.prev_runner[i]] *)
Definition read_prev_runner : M World coord :=
  w ← get;
  match prev_runner w.1 with
  | Some c => mret c
  | None => raise (AttributeError "'Maze' object has no attribute 'prev_runner'")
  end.

(** One iteration of the [while] loop of [explore]; [num] is the loop
    counter before the iteration, the action of the step is returned. *)
Definition explore_body (num : Z) : M World string :=
  render_if_enabled;;
  w ← get;
  on_maze (path_append (get_x w.2, get_y w.2));;
  action ← move;
  prev ← read_prev_runner;
  on_maze (exploration_data_append
             (pretty (num + 1), pretty prev.1, pretty prev.2, action));;
  mret action.

(** The [while] loop of [explore].  The source loop has no bound: [fuel]
    bounds the number of iterations and [None] says that the loop was
    still running when the fuel ran out.  The test of the loop is made
    before fuel is asked for. *)
Fixpoint explore_loop (fuel : nat) (goal : coord) (num : Z) (actions : string)
    (w : World) : option (result (Z * string) * World) :=
  if decide ((get_x w.2, get_y w.2) ≠ goal) then
    match fuel with
    | O => None
    | S fuel' =>
        match explore_body num w with
        | (Ok action, w') =>
            explore_loop fuel' goal (num + 1) (actions +:+ action) w'
        | (Raise e, w') => Some (Raise e, w')
        end
    end
  else Some (Ok (num, actions), w).

(** [explore(runner, goal)]: returns the string of actions. *)
Definition explore (fuel : nat) (goal : coord) (w : World)
    : option (result string * World) :=
  match explore_loop fuel goal 0 "" w with
  | None => None
  | Some (Raise e, w') => Some (Raise e, w')
  | Some (Ok (num, actions), w') =>
      Some ((on_maze (path_append (get_x w'.2, get_y w'.2));;
             render_if_enabled;;
             mret actions) w')
  end.

(** The loop-removal block of [shortest_path]: one iteration of the
    [for] loop over [self.path], on the pair of [visited] and
    [direct_path]. *)
Definition loop_removal_step (st : gmap coord Z * list coord) (position : coord)
    : gmap coord Z * list coord :=
  let '(visited, direct_path) := st in
  match visited !! position with
  | Some loop_start => (visited, slice_to direct_path (loop_start + 1))
  | None =>
      let direct_path := direct_path ++ [(position.1, position.2)] in
      (<[position := len direct_path - 1]> visited, direct_path)
  end.

Definition loop_removal (path : list coord) : list coord :=
  (foldl loop_removal_step (∅, []) path).2.

(** [shortest_path(starting, goal)]: [None] is an argument left out. *)
Definition shortest_path (fuel : nat) (starting goal : option coord) (m : Maze)
    : option (result (list coord) * Maze) :=
  let starting := default (0, 0) starting in
  let goal := default (width m - 1, height m - 1) goal in
  let runner := create_runner starting.1 starting.2 "N" in
  match explore fuel goal (m, runner) with
  | None => None
  | Some (Raise e, w') => Some (Raise e, w'.1)
  | Some (Ok _, w') =>
      let direct_path := loop_removal (path w'.1) in
      let out := (render_if_enabled;; mret direct_path) w' in
      Some (out.1, out.2.1)
  end.

End Maze.
Export Maze.

(** ** The vocabulary of the specification *)

Module Spec.

(** The cycle N, E, S, W, N of the data model: its successor ... *)
Definition right_of (o : string) : string :=
  if decide (o = "N") then "E"
  else if decide (o = "E") then "S"
  else if decide (o = "S") then "W"
  else if decide (o = "W") then "N"
  else o.

(** ... and its predecessor. *)
Definition left_of (o : string) : string :=
  if decide (o = "N") then "W"
  else if decide (o = "W") then "S"
  else if decide (o = "S") then "E"
  else if decide (o = "E") then "N"
  else o.

(** The cell next to [c] in the direction [o]. *)
Definition advance (o : string) (c : coord) : coord :=
  if decide (o = "N") then (c.1, c.2 + 1)
  else if decide (o = "S") then (c.1, c.2 - 1)
  else if decide (o = "E") then (c.1 + 1, c.2)
  else if decide (o = "W") then (c.1 - 1, c.2)
  else c.

(** The runner one cell further in the direction it faces. *)
Definition advanced (r : Runner) : Runner :=
  {| x := (advance (orientation r) (x r, y r)).1;
     y := (advance (orientation r) (x r, y r)).2;
     orientation := orientation r |}.

(** The absolute flags (north, east, south, west) seen from heading [o]
    as (left, front, right, behind). *)
Definition rotate (o : string) (walls : bool * bool * bool * bool)
    : bool * bool * bool * bool :=
  let '(north, east, south, west) := walls in
  if decide (o = "N") then (west, north, east, south)
  else if decide (o = "E") then (north, east, south, west)
  else if decide (o = "S") then (east, south, west, north)
  else (south, west, north, east).

Definition left_front_right (q : bool * bool * bool * bool) : bool * bool * bool :=
  (q.1.1.1, q.1.1.2, q.1.2).

(** The wall of the cell of [r] that lies behind [r]. *)
Definition wall_behind (m : Maze) (r : Runner) : bool :=
  (rotate (orientation r) (get_walls m (get_x r) (get_y r))).2.

(** The wall of cell [c] on its side [o]. *)
Definition wall_toward (m : Maze) (c : coord) (o : string) : bool :=
  (rotate o (get_walls m c.1 c.2)).1.1.2.

(** The path simplifier as the specification words it: an output
    sequence and a map from a coordinate to the output index it was
    first given; an unseen coordinate is appended and its index
    recorded, a coordinate seen at index [k] cuts the output back to
    length [k + 1] and the map is left as it is. *)
Definition simplify_step (st : list coord * gmap coord nat) (c : coord)
    : list coord * gmap coord nat :=
  match st.2 !! c with
  | None => (st.1 ++ [c], <[c := length st.1]> st.2)
  | Some k => (take (k + 1) st.1, st.2)
  end.

Definition simplify_state (trace : list coord) : list coord * gmap coord nat :=
  foldl simplify_step ([], ∅) trace.

Definition simplify (trace : list coord) : list coord := (simplify_state trace).1.

(** The invariant of the scan: the output has no repetition and every
    coordinate of the output sits at its recorded index. *)
Definition scan_inv (st : list coord * gmap coord nat) : Prop :=
  NoDup st.1 ∧ ∀ c, c ∈ st.1 → ∃ k, st.2 !! c = Some k ∧ st.1 !! k = Some c.

(** The four boundary wall lines of a [w] by [h] maze. *)
Definition boundary_walls (w h : Z) (m : Maze) : Prop :=
  (∀ i, 0 ≤ i < w → (i, 0) ∈ h_walls m ∧ (i, h) ∈ h_walls m) ∧
  (∀ j, 0 ≤ j < h → (0, j) ∈ v_walls m ∧ (w, j) ∈ v_walls m).

(** What every method leaves in place on the maze object: the size, the
    walls already there, and the two buffers as prefixes of the new
    ones. *)
Definition maze_frame (m m' : Maze) : Prop :=
  _width m' = _width m ∧ _height m' = _height m ∧
  h_walls m ⊆ h_walls m' ∧ v_walls m ⊆ v_walls m' ∧
  path m `prefix_of` path m' ∧
  exploration_data m `prefix_of` exploration_data m'.

(** A computation that does not touch the maze object. *)
Definition keeps_maze {A} (c : M World A) : Prop :=
  ∀ w, (c w).2.1 = w.1.

(** One call of a method of the maze, as seen on the maze object: the
    calls that raise are steps too, with the state left at the raise. *)
Inductive method_step : Maze → Maze → Prop :=
  | step_add_horizontal_wall m x_coordinate horizontal_line :
      method_step m (add_horizontal_wall x_coordinate horizontal_line m)
  | step_add_vertical_wall m y_coordinate vertical_line :
      method_step m (add_vertical_wall y_coordinate vertical_line m)
  | step_go_straight m r res m' r' :
      go_straight (m, r) = (res, (m', r')) → method_step m m'
  | step_move m r res m' r' :
      move (m, r) = (res, (m', r')) → method_step m m'
  | step_explore fuel goal m r res m' r' :
      explore fuel goal (m, r) = Some (res, (m', r')) → method_step m m'
  | step_shortest_path fuel starting goal m res m' :
      shortest_path fuel starting goal m = Some (res, m') → method_step m m'.

(** One operation of the class on a maze object: a call of a method, or
    an assignment through one of its two property setters. *)
Inductive maze_step : Maze → Maze → Prop :=
  | step_method m m' :
      method_step m m' → maze_step m m'
  | step_path_setter m p :
      maze_step m (path_setter p m)
  | step_exploration_data_setter m d :
      maze_step m (exploration_data_setter d m).

(** What every operation of the class leaves in place: the size and the
    walls already there. *)
Definition walls_frame (m m' : Maze) : Prop :=
  _width m' = _width m ∧ _height m' = _height m ∧
  h_walls m ⊆ h_walls m' ∧ v_walls m ⊆ v_walls m'.

(** The two buffers read as never cleared: whatever operations of the
    class are applied to a maze, what its buffers held is still there,
    at their start. *)
Definition buffers_never_cleared_as_stated (m : Maze) : Prop :=
  ∀ m', rtc maze_step m m' →
    path m `prefix_of` path m' ∧
    exploration_data m `prefix_of` exploration_data m'.

Definition action_codes : list string := ["F"; "LF"; "RF"; "LLF"].

(** The maze object after a call of [shortest_path] with both arguments
    left out (the maze itself if the call is still running when the fuel
    is spent). *)
Definition after_default_run (fuel : nat) (m : Maze) : Maze :=
  match shortest_path fuel None None m with
  | Some (_, m') => m'
  | None => m
  end.

(** The priority rule of the exploration engine read literally: in each
    of the four cases the runner turns as said, advances, and the action
    code is returned. *)
Definition move_priority_as_stated (m : Maze) (r : Runner) : Prop :=
  ∀ l f rt, sense_walls m r = Ok (l, f, rt) →
    if negb l then
      ∃ r1 r2 m', turn "Left" r = (Ok tt, r1) ∧ forward r1 = (Ok tt, r2) ∧
                  move (m, r) = (Ok "LF", (m', r2))
    else if negb f then
      ∃ r1 m', forward r = (Ok tt, r1) ∧ move (m, r) = (Ok "F", (m', r1))
    else if negb rt then
      ∃ r1 r2 m', turn "Right" r = (Ok tt, r1) ∧ forward r1 = (Ok tt, r2) ∧
                  move (m, r) = (Ok "RF", (m', r2))
    else
      ∃ r1 r2 r3 m', turn "Left" r = (Ok tt, r1) ∧ turn "Left" r1 = (Ok tt, r2) ∧
                     forward r2 = (Ok tt, r3) ∧
                     move (m, r) = (Ok "LLF", (m', r3)).

(** The simplifier read as giving, on every non-empty trace, a sequence
    without repetition that starts and ends as the trace does. *)
Definition loop_free_endpoints_as_stated (t : list coord) : Prop :=
  t ≠ [] →
  NoDup (loop_removal t) ∧
  head (loop_removal t) = head t ∧
  last (loop_removal t) = last t.

(** The wall-ahead error of [go_straight] read as unreachable from
    [move]. *)
Definition wall_error_unreachable_as_stated (m : Maze) (r : Runner) : Prop :=
  ∀ w', move (m, r) ≠ (Raise (ValueError ""), w').

End Spec.
Export Spec.

From Stdlib Require Import Ascii.

(** ** maze_runner.py *)

Module MazeRunner.

(** [seq[i]] for a list or a string, [what] naming the kind of sequence
    in the message of the [IndexError]. *)
Definition index_at {A} (what : string) (l : list A) (i : Z) : result A :=
  let j := if decide (i < 0) then i + Z.of_nat (length l) else i in
  if decide (j < 0) then Raise (IndexError (what +:+ " index out of range"))
  else match l !! Z.to_nat j with
       | Some a => Ok a
       | None => Raise (IndexError (what +:+ " index out of range"))
       end.

(** A [for] loop over [l] whose body may raise, on the state [s]. *)
Fixpoint for_each {A S} (l : list A) (body : A → S → result S) (s : S)
    : result S :=
  match l with
  | [] => Ok s
  | a :: l' => s' ← body a s; for_each l' body s'
  end.

(** [enumerate(l)] *)
Definition enumerate {A} (l : list A) : list (Z * A) :=
  imap (λ i a, (Z.of_nat i, a)) l.

(** [try: ... except IndexError: raise ValueError(msg)] *)
Definition except_IndexError {A} (msg : string) (r : result A) : result A :=
  match r with
  | Raise (IndexError _) => Raise (ValueError msg)
  | _ => r
  end.

Definition hash : Ascii.ascii := "#"%char.
Definition dot : Ascii.ascii := "."%char.

(** [all(c == "#" for c in line)] *)
Definition all_hash (line : list Ascii.ascii) : bool :=
  forallb (λ c, bool_decide (c = hash)) line.

(** [line.startswith('#')] and [line.endswith('#')] *)
Definition startswith_hash (line : list Ascii.ascii) : bool :=
  bool_decide (head line = Some hash).
Definition endswith_hash (line : list Ascii.ascii) : bool :=
  bool_decide (last line = Some hash).

(** The body of the validation loop of [maze_reader] for line [i]. *)
Definition check_line (width : Z) (i : Z) (line : list Ascii.ascii) : result unit :=
  if bool_decide (len line ≠ 2 * width + 1)
     || negb (startswith_hash line) || negb (endswith_hash line)
  then Raise (ValueError ("Line " +:+ pretty (i + 1)
                +:+ " is not a valid line as it's missing the outer wall."))
  else
    for_each (enumerate line)
      (λ jc _,
         if bool_decide (jc.2 ≠ hash ∧ jc.2 ≠ dot)
         then Raise (ValueError ("Invalid character at position "
                       +:+ pretty (jc.1 + 1) +:+ " in line "
                       +:+ pretty (i + 1) +:+ "."))
         else Ok tt) tt.

(** The body of the inner loop over [x] of the horizontal walls. *)
Definition horizontal_cell (height y : Z) (horizontal_line : list Ascii.ascii)
    (x : Z) (maze : Maze) : result Maze :=
  c ← index_at "string" horizontal_line (2 * x);
  if decide (c ≠ hash)
  then Raise (ValueError
                ("The wall intersections in the file are incorrect."
                 +:+ " The character at " +:+ pretty (y * 2 + 1) +:+ ":"
                 +:+ pretty (x * 2 + 1)
                 +:+ " seems wrong. It should be a '#'."))
  else
    c' ← index_at "string" horizontal_line (2 * x + 1);
    if decide (c' = hash)
    then Ok (add_horizontal_wall x (height - y) maze)
    else Ok maze.

(** The body of the outer loop over [y] of the horizontal walls. *)
Definition horizontal_row (width height : Z) (input_lines : list (list Ascii.ascii))
    (y : Z) (maze : Maze) : result Maze :=
  horizontal_line ← index_at "list" input_lines (2 * y);
  for_each (range width) (horizontal_cell height y horizontal_line) maze.

(** The body of the inner loop over [x] of the vertical walls. *)
Definition vertical_cell (height y : Z) (vertical_line : list Ascii.ascii)
    (x : Z) (maze : Maze) : result Maze :=
  c ← index_at "string" vertical_line (2 * x);
  if decide (c = hash)
  then Ok (add_vertical_wall (height - y - 1) x maze)
  else Ok maze.

(** The body of the outer loop over [y] of the vertical walls. *)
Definition vertical_row (width height : Z) (input_lines : list (list Ascii.ascii))
    (y : Z) (maze : Maze) : result Maze :=
  vertical_line ← index_at "list" input_lines (2 * y + 1);
  for_each (range (width + 1)) (vertical_cell height y vertical_line) maze.

(** [maze_reader] from the point where the file has been read: the
    argument is the list [input_lines] of the lines of the file, each
    stripped of surrounding white space, as the read loop builds it.
    Opening the file and stripping are left to the caller.  A line is the
    list of its characters, taken in [ascii]. *)
Definition maze_reader (input_lines : list (list Ascii.ascii)) : result Maze :=
  let line_lengths : gset Z := list_to_set (len <$> input_lines) in
  if decide (Z.of_nat (size line_lengths) ≠ 1)
  then Raise (ValueError "The maze file may be missing a column.")
  else if decide (len input_lines `mod` 2 ≠ 1)
  then Raise (ValueError "The maze file may be missing a row.")
  else
    first ← index_at "list" input_lines 0;
    outer_ok ← (if all_hash first
                then last ← index_at "list" input_lines (-1);
                     Ok (all_hash last)
                else Ok false);
    if negb outer_ok
    then Raise (ValueError
                  ("There is an incorrect character in at least one or more"
                   +:+ " of the horizontal outer walls."))
    else
      let height := len input_lines `div` 2 in
      first' ← index_at "list" input_lines 0;
      let width := len first' `div` 2 in
      for_each (enumerate input_lines)
        (λ il _, check_line width il.1 il.2) tt;;
      let maze := init width height in
      except_IndexError "There is something wrong with the maze file."
        (maze ← for_each (range (height + 1))
                  (horizontal_row width height input_lines) maze;
         for_each (range height)
           (vertical_row width height input_lines) maze).

(** The lines of a maze text given as strings. *)
Definition lines_of (text : list string) : list (list Ascii.ascii) :=
  String.list_ascii_of_string <$> text.

End MazeRunner.
Export MazeRunner.

(** ** Vocabulary for maze texts *)

Module MazeText.

(** The character at column [j] of line [i]. *)
Definition char_at (input_lines : list (list Ascii.ascii)) (i j : Z) : option Ascii.ascii :=
  if decide (0 ≤ i ∧ 0 ≤ j)
  then input_lines !! Z.to_nat i ≫= λ line, line !! Z.to_nat j
  else None.

(** What the validation of [maze_reader] establishes, for a maze of [w]
    by [h] cells: 2h + 1 lines of 2w + 1 characters among '#' and '.',
    the first and the last line all '#', every line starting and ending
    with '#'. *)
Definition validated (w h : Z) (input_lines : list (list ascii)) : Prop :=
  0 ≤ w ∧ 0 ≤ h ∧
  len input_lines = 2 * h + 1 ∧
  Forall (λ line, len line = 2 * w + 1) input_lines ∧
  Forall (Forall (λ c, c = hash ∨ c = dot)) input_lines ∧
  (∀ j, 0 ≤ j ≤ 2 * w →
        char_at input_lines 0 j = Some hash ∧
        char_at input_lines (2 * h) j = Some hash) ∧
  (∀ i, 0 ≤ i ≤ 2 * h →
        char_at input_lines i 0 = Some hash ∧
        char_at input_lines i (2 * w) = Some hash).

(** The texts [maze_reader] accepts: validated, with '#' at every even
    column of every even line (the wall intersections). *)
Definition well_formed (w h : Z) (input_lines : list (list ascii)) : Prop :=
  validated w h input_lines ∧
  (∀ y x, 0 ≤ y ≤ h → 0 ≤ x < w →
          char_at input_lines (2 * y) (2 * x) = Some hash).

(** The two wall-reading loops of [maze_reader], on the new maze. *)
Definition read_walls (w h : Z) (input_lines : list (list ascii)) : result Maze :=
  maze ← for_each (range (h + 1)) (horizontal_row w h input_lines) (init w h);
  for_each (range h) (vertical_row w h input_lines) maze.

(** The message [maze_reader] gives to an [IndexError] of these loops. *)
Definition something_wrong : string :=
  "There is something wrong with the maze file.".

(** The message of the [ValueError] for a wrong wall intersection. *)
Definition intersection_message (y x : Z) : string :=
  "The wall intersections in the file are incorrect."
  +:+ " The character at " +:+ pretty (y * 2 + 1) +:+ ":"
  +:+ pretty (x * 2 + 1) +:+ " seems wrong. It should be a '#'.".

(** The maze object while the horizontal walls are read: it is the new
    maze but for its horizontal walls, which are the boundary ones and
    those of the cells [(y, x)] read so far, [seen y x], that hold '#'
    and pass the bounds test of [add_horizontal_wall]. *)
Definition h_scanned (w h : Z) (input_lines : list (list ascii))
    (seen : Z → Z → Prop) (m : Maze) : Prop :=
  m = with_h_walls (h_walls m) (init w h) ∧
  ∀ c, c ∈ h_walls m ↔
       c ∈ h_walls (init w h) ∨
       ∃ y x, seen y x ∧ (0 ≤ x ∧ x < w) ∧ (1 ≤ h - y ∧ h - y < h) ∧
              char_at input_lines (2 * y) (2 * x + 1) = Some hash ∧
              c = (x, h - y).

(** The same while the vertical walls are read, [m0] being the maze left
    by the reading of the horizontal ones. *)
Definition v_scanned (w h : Z) (input_lines : list (list ascii)) (m0 : Maze)
    (seen : Z → Z → Prop) (m : Maze) : Prop :=
  m = with_v_walls (v_walls m) m0 ∧
  ∀ c, c ∈ v_walls m ↔
       c ∈ v_walls m0 ∨
       ∃ y x, seen y x ∧ (0 ≤ h - y - 1 ∧ h - y - 1 < h) ∧ (1 ≤ x ∧ x < w) ∧
              char_at input_lines (2 * y + 1) (2 * x) = Some hash ∧
              c = (x, h - y - 1).

End MazeText.
Export MazeText.

(** ** Vocabulary for whole explorations *)

Module Walks.

(** The cell the runner stands on. *)
Definition position (r : Runner) : coord := (get_x r, get_y r).

(** The opposite heading. *)
Definition opposite (o : string) : string := left_of (left_of o).

(** A cell of the [w] by [h] grid. *)
Definition in_bounds (w h : Z) (c : coord) : Prop :=
  (0 ≤ c.1 ∧ c.1 < w) ∧ (0 ≤ c.2 ∧ c.2 < h).

(** [c'] is next to [c] on a side of [c] that carries no wall. *)
Definition open_step (m : Maze) (c c' : coord) : Prop :=
  ∃ o, o ∈ orientations ∧ c' = advance o c ∧ wall_toward m c o = false.

(** Every coordinate of the sequence is reached from the one before it
    by an open step. *)
Fixpoint is_walk (m : Maze) (l : list coord) : Prop :=
  match l with
  | c :: l' =>
      match l' with
      | c' :: _ => open_step m c c' ∧ is_walk m l'
      | [] => True
      end
  | [] => True
  end.

(** The runner's cell is not walled on all four sides. *)
Definition not_sealed (m : Maze) (c : coord) : Prop :=
  get_walls m c.1 c.2 ≠ (true, true, true, true).

(** The rows [explore] writes for the moves made from the cells [t] with
    the actions [acts], the loop counter being [num] before the first. *)
Fixpoint log_rows (num : Z) (t : list coord) (acts : list string)
    : list (string * string * string * string) :=
  match t, acts with
  | c :: t', a :: acts' =>
      (pretty (num + 1), pretty c.1, pretty c.2, a) :: log_rows (num + 1) t' acts'
  | _, _ => []
  end.

(** The string built by [actions += action] over the actions in order. *)
Definition concat_actions (acts : list string) : string :=
  foldl (λ s a, s +:+ a) "" acts.

(** The cells (0, y), ..., (0, y + k - 1) of a corridor. *)
Definition corridor_cells (y : Z) (k : nat) : list coord :=
  (λ j, (0, j)) <$> seqZ y (Z.of_nat k).

End Walks.
Export Walks.

(** * Properties *)

#[global] Arguments get_walls : simpl never.
#[global] Arguments rotate : simpl never.
#[global] Arguments left_of : simpl never.
#[global] Arguments right_of : simpl never.
#[global] Arguments advanced : simpl never.

(** ** The runner *)

Section runner_facts.

Implicit Types (r : Runner) (o : string).

Lemma orientation_cases o :
  o ∈ orientations ↔ o = "N" ∨ o = "E" ∨ o = "S" ∨ o = "W".
Proof. unfold orientations. rewrite !elem_of_cons, elem_of_nil. tauto. Qed.

Lemma orientation_options_valid r :
  orientation r ∈ orientations →
  orientation_options r
  = Ok (left_of (orientation r), orientation r, right_of (orientation r)).
Proof.
  destruct r as [x0 y0 o]; simpl.
  intros [-> | [-> | [-> | ->]]]%orientation_cases; reflexivity.
Qed.

Lemma orientation_options_invalid r :
  orientation r ∉ orientations →
  orientation_options r = Raise (ValueError "tuple.index(x): x not in tuple").
Proof.
  destruct r as [x0 y0 o]; simpl. rewrite orientation_cases. intros Hno.
  unfold orientation_options, get_orientation, orientations; simpl.
  repeat (case_decide; [subst; exfalso; apply Hno; tauto |]).
  reflexivity.
Qed.

Lemma left_of_valid o : o ∈ orientations → left_of o ∈ orientations.
Proof.
  rewrite !orientation_cases.
  intros [-> | [-> | [-> | ->]]]; vm_compute; tauto.
Qed.

Lemma right_of_valid o : o ∈ orientations → right_of o ∈ orientations.
Proof.
  rewrite !orientation_cases.
  intros [-> | [-> | [-> | ->]]]; vm_compute; tauto.
Qed.

Lemma turn_left r :
  orientation r ∈ orientations →
  turn "Left" r = (Ok tt, set_orientation (left_of (orientation r)) r).
Proof.
  intros Hv. unfold turn, mbind, M_bind, bind, get, lift_result.
  rewrite (orientation_options_valid r Hv). reflexivity.
Qed.

Lemma turn_right r :
  orientation r ∈ orientations →
  turn "Right" r = (Ok tt, set_orientation (right_of (orientation r)) r).
Proof.
  intros Hv. unfold turn, mbind, M_bind, bind, get, lift_result.
  rewrite (orientation_options_valid r Hv). reflexivity.
Qed.

Lemma turn_invalid direction r :
  orientation r ∉ orientations →
  turn direction r = (Raise (ValueError "tuple.index(x): x not in tuple"), r).
Proof.
  intros Hv. unfold turn, mbind, M_bind, bind, get, lift_result.
  rewrite (orientation_options_invalid r Hv). reflexivity.
Qed.

Lemma forward_valid r :
  orientation r ∈ orientations →
  forward r = (Ok tt, advanced r).
Proof.
  destruct r as [x0 y0 o]; simpl.
  intros [-> | [-> | [-> | ->]]]%orientation_cases; reflexivity.
Qed.

Lemma left_right_inverse o :
  o ∈ orientations → right_of (left_of o) = o ∧ left_of (right_of o) = o.
Proof.
  intros [-> | [-> | [-> | ->]]]%orientation_cases; split; reflexivity.
Qed.

End runner_facts.

(** C8: [forward] moves the runner one cell in the direction it faces
    (N: y+1, S: y-1, E: x+1, W: x-1) and keeps the orientation; [turn]
    with "Left" (resp. "Right") replaces the orientation by its
    predecessor (resp. successor) in the cycle N, E, S, W, N and keeps the
    position; turning left then right, or right then left, gives the
    runner back. *)
Theorem forward_and_turn (r : Runner) :
  orientation r ∈ orientations →
  (orientation r = "N" → forward r = (Ok tt, mkRunner (x r) (y r + 1) "N")) ∧
  (orientation r = "S" → forward r = (Ok tt, mkRunner (x r) (y r - 1) "S")) ∧
  (orientation r = "E" → forward r = (Ok tt, mkRunner (x r + 1) (y r) "E")) ∧
  (orientation r = "W" → forward r = (Ok tt, mkRunner (x r - 1) (y r) "W")) ∧
  turn "Left" r = (Ok tt, mkRunner (x r) (y r) (left_of (orientation r))) ∧
  turn "Right" r = (Ok tt, mkRunner (x r) (y r) (right_of (orientation r))) ∧
  (turn "Left";; turn "Right") r = (Ok tt, r) ∧
  (turn "Right";; turn "Left") r = (Ok tt, r).
Proof.
  intros Hv. destruct r as [x0 y0 o]; simpl in *.
  repeat split; try (intros ->; reflexivity).
  - by rewrite turn_left.
  - by rewrite turn_right.
  - apply orientation_cases in Hv as [-> | [-> | [-> | ->]]]; reflexivity.
  - apply orientation_cases in Hv as [-> | [-> | [-> | ->]]]; reflexivity.
Qed.

Lemma forward_and_turn_witness :
  forward (create_runner 2 5 "E") = (Ok tt, mkRunner 3 5 "E") ∧
  (turn "Left";; turn "Right") (create_runner 2 5 "E")
  = (Ok tt, create_runner 2 5 "E").
Proof.
  assert (Hv : orientation (create_runner 2 5 "E") ∈ orientations)
    by (apply orientation_cases; simpl; tauto).
  pose proof (forward_and_turn (create_runner 2 5 "E") Hv) as H.
  split; [apply H; reflexivity | apply H].
Defined.

(** ** Wall queries *)

Section wall_facts.

Implicit Types (m : Maze) (r : Runner).

Lemma get_walls_flags m x0 y0 :
  get_walls m x0 y0
  = (bool_decide ((x0, y0 + 1) ∈ h_walls m),
     bool_decide ((x0 + 1, y0) ∈ v_walls m),
     bool_decide ((x0, y0) ∈ h_walls m),
     bool_decide ((x0, y0) ∈ v_walls m)).
Proof. reflexivity. Qed.

Lemma sense_walls_valid m r :
  orientation r ∈ orientations →
  sense_walls m r
  = Ok (left_front_right
          (rotate (orientation r) (get_walls m (get_x r) (get_y r)))).
Proof.
  intros Hv. unfold sense_walls.
  destruct (get_walls m (get_x r) (get_y r)) as [[[north east] south] west].
  destruct r as [x0 y0 o]; simpl in Hv.
  apply orientation_cases in Hv as [-> | [-> | [-> | ->]]]; reflexivity.
Qed.

Lemma sense_walls_invalid m r :
  orientation r ∉ orientations →
  sense_walls m r = Raise (ValueError "tuple.index(x): x not in tuple").
Proof.
  intros Hv. unfold sense_walls.
  destruct (get_walls _ _ _) as [[[north east] south] west].
  rewrite (orientation_options_invalid r Hv). reflexivity.
Qed.

Lemma sense_walls_Ok m r s :
  sense_walls m r = Ok s → orientation r ∈ orientations.
Proof.
  intros Hs. destruct (decide (orientation r ∈ orientations)) as [|Hn]; [done|].
  rewrite (sense_walls_invalid m r Hn) in Hs. discriminate.
Qed.

End wall_facts.

(** C2: [get_walls] at (x, y) returns (north, east, south, west) with
    north set iff the horizontal wall (x, y+1) exists, south iff (x, y),
    east iff the vertical wall (x+1, y) exists, west iff (x, y); and for a
    runner at (x, y) [sense_walls] returns these flags rotated into the
    runner's frame as (left, front, right): (west, north, east) facing N,
    (north, east, south) facing E, (east, south, west) facing S and
    (south, west, north) facing W. *)
Theorem get_walls_sense_walls (m : Maze) (x0 y0 : Z) (o : string) :
  o ∈ orientations →
  ∃ north east south west,
    get_walls m x0 y0 = (north, east, south, west) ∧
    (north = true ↔ (x0, y0 + 1) ∈ h_walls m) ∧
    (south = true ↔ (x0, y0) ∈ h_walls m) ∧
    (east = true ↔ (x0 + 1, y0) ∈ v_walls m) ∧
    (west = true ↔ (x0, y0) ∈ v_walls m) ∧
    (o = "N" → sense_walls m (create_runner x0 y0 o) = Ok (west, north, east)) ∧
    (o = "E" → sense_walls m (create_runner x0 y0 o) = Ok (north, east, south)) ∧
    (o = "S" → sense_walls m (create_runner x0 y0 o) = Ok (east, south, west)) ∧
    (o = "W" → sense_walls m (create_runner x0 y0 o) = Ok (south, west, north)).
Proof.
  intros Hv. eexists _, _, _, _. split; [apply get_walls_flags |].
  rewrite !bool_decide_eq_true.
  repeat split; try done;
    intros ->; rewrite sense_walls_valid by done; reflexivity.
Qed.

Lemma get_walls_sense_walls_witness :
  ∃ north east south west,
    get_walls (init 2 2) 0 1 = (north, east, south, west) ∧
    sense_walls (init 2 2) (create_runner 0 1 "E") = Ok (north, east, south) ∧
    (north, east, south, west) = (true, false, false, true).
Proof.
  assert (Hv : "E" ∈ orientations) by (apply orientation_cases; tauto).
  destruct (get_walls_sense_walls (init 2 2) 0 1 "E" Hv)
    as (north & east & south & west & Hw & _ & _ & _ & _ & _ & HE & _).
  exists north, east, south, west.
  split; [exact Hw |]. split; [apply HE; reflexivity |].
  rewrite <- Hw. vm_compute. reflexivity.
Defined.

(** ** One step of the exploration engine *)

Section move_facts.

Implicit Types (m : Maze) (r : Runner) (o : string).

Lemma rotate_left_of o walls :
  o ∈ orientations → (rotate (left_of o) walls).1.1.2 = (rotate o walls).1.1.1.
Proof.
  destruct walls as [[[north east] south] west].
  intros [-> | [-> | [-> | ->]]]%orientation_cases; reflexivity.
Qed.

Lemma rotate_right_of o walls :
  o ∈ orientations → (rotate (right_of o) walls).1.1.2 = (rotate o walls).1.2.
Proof.
  destruct walls as [[[north east] south] west].
  intros [-> | [-> | [-> | ->]]]%orientation_cases; reflexivity.
Qed.

Lemma rotate_left_left o walls :
  o ∈ orientations →
  (rotate (left_of (left_of o)) walls).1.1.2 = (rotate o walls).2.
Proof.
  destruct walls as [[[north east] south] west].
  intros [-> | [-> | [-> | ->]]]%orientation_cases; reflexivity.
Qed.

Lemma get_walls_with_prev_runner m c x0 y0 :
  get_walls (with_prev_runner c m) x0 y0 = get_walls m x0 y0.
Proof. reflexivity. Qed.

(** [go_straight] advances across an open side and raises in front of
    a wall, leaving the maze and the runner as they were. *)
Lemma go_straight_valid m r :
  orientation r ∈ orientations →
  go_straight (m, r)
  = if wall_toward m (x r, y r) (orientation r)
    then (Raise (ValueError ""), (m, r))
    else (Ok tt, (m, advanced r)).
Proof.
  intros Hv. unfold go_straight, mbind, M_bind, bind, get, lift_result; simpl.
  rewrite (sense_walls_valid m r Hv). unfold wall_toward, get_x, get_y; simpl.
  destruct (rotate _ _) as [[[l f] rt] b]; simpl.
  destruct f; simpl; [reflexivity |].
  unfold on_runner; simpl. by rewrite forward_valid.
Qed.

Lemma go_straight_invalid m r :
  orientation r ∉ orientations →
  go_straight (m, r)
  = (Raise (ValueError "tuple.index(x): x not in tuple"), (m, r)).
Proof.
  intros Hv. unfold go_straight, mbind, M_bind, bind, get, lift_result; simpl.
  by rewrite (sense_walls_invalid m r Hv).
Qed.

(** The four branches of [move], and the raise of the last one. *)
Lemma move_valid m r :
  orientation r ∈ orientations →
  let o := orientation r in
  let m' := with_prev_runner (get_x r, get_y r) m in
  let '(l, f, rt, b) := rotate o (get_walls m (get_x r) (get_y r)) in
  move (m, r)
  = if negb l then (Ok "LF", (m', advanced (set_orientation (left_of o) r)))
    else if negb f then (Ok "F", (m', advanced r))
    else if negb rt then
      (Ok "RF", (m', advanced (set_orientation (right_of o) r)))
    else if negb b then
      (Ok "LLF", (m', advanced (set_orientation (left_of (left_of o)) r)))
    else (Raise (ValueError ""),
          (m', set_orientation (left_of (left_of o)) r)).
Proof.
  intros Hv o m'. subst o m'. unfold get_x, get_y.
  set (walls := get_walls m (x r) (y r)).
  pose proof (rotate_left_of _ walls Hv) as Hl.
  pose proof (rotate_right_of _ walls Hv) as Hr.
  pose proof (rotate_left_left _ walls Hv) as Hb.
  pose proof (left_of_valid _ Hv) as Hvl.
  pose proof (left_of_valid _ Hvl) as Hvll.
  pose proof (right_of_valid _ Hv) as Hvr.
  unfold move, mbind, M_bind, bind, get, lift_result, on_maze; simpl.
  rewrite (sense_walls_valid m r Hv). unfold get_x, get_y. fold walls.
  destruct (rotate (orientation r) walls) as [[[l f] rt] b] eqn:Hrot;
    simpl in *.
  destruct l; simpl.
  2:{ unfold on_runner at 1; simpl. rewrite (turn_left r Hv).
      rewrite go_straight_valid by done. unfold wall_toward; simpl.
      rewrite get_walls_with_prev_runner. fold walls.
      rewrite Hl. reflexivity. }
  destruct f; simpl.
  2:{ rewrite go_straight_valid by done. unfold wall_toward; simpl.
      rewrite get_walls_with_prev_runner. fold walls.
      rewrite Hrot. reflexivity. }
  destruct rt; simpl.
  2:{ unfold on_runner at 1; simpl. rewrite (turn_right r Hv).
      rewrite go_straight_valid by done. unfold wall_toward; simpl.
      rewrite get_walls_with_prev_runner. fold walls.
      rewrite Hr. reflexivity. }
  unfold on_runner at 1; simpl. rewrite (turn_left r Hv).
  unfold on_runner at 1; simpl. rewrite turn_left by done.
  rewrite go_straight_valid by done. unfold wall_toward; simpl.
  rewrite get_walls_with_prev_runner. fold walls.
  rewrite Hb. destruct b; reflexivity.
Qed.

End move_facts.

Section move_claims.

Implicit Types (m : Maze) (r : Runner) (o : string).

Lemma rotate_all_walls o walls :
  o ∈ orientations →
  rotate o walls = (true, true, true, true) ↔ walls = (true, true, true, true).
Proof.
  destruct walls as [[[[] []] []] []];
    intros [-> | [-> | [-> | ->]]]%orientation_cases;
    vm_compute; split; congruence.
Qed.

Lemma advanced_position r :
  (x (advanced r), y (advanced r)) = advance (orientation r) (x r, y r).
Proof. unfold advanced; simpl. by destruct (advance _ _). Qed.

Lemma move_invalid m r :
  orientation r ∉ orientations →
  move (m, r)
  = (Raise (ValueError "tuple.index(x): x not in tuple"),
     (with_prev_runner (get_x r, get_y r) m, r)).
Proof.
  intros Hv. unfold move, mbind, M_bind, bind, get, lift_result, on_maze; simpl.
  by rewrite (sense_walls_invalid m r Hv).
Qed.

Lemma move_action_codes m r a w' :
  move (m, r) = (Ok a, w') → a ∈ action_codes.
Proof.
  destruct (decide (orientation r ∈ orientations)) as [Hv | Hv].
  - pose proof (move_valid m r Hv) as Hm. simpl in Hm.
    destruct (rotate _ _) as [[[[] []] []] []]; simpl in Hm; rewrite Hm;
      intros [= <- <-]; unfold action_codes;
      rewrite !elem_of_cons; tauto.
  - rewrite (move_invalid m r Hv). discriminate.
Qed.

End move_claims.

(** C1, as the code has it: on the sensed (left, front, right) walls,
    [move] turns left and advances returning "LF" if there is no left
    wall; else advances returning "F" if there is no front wall; else
    turns right and advances returning "RF" if there is no right wall;
    else turns left twice and then, if no wall lies behind the runner,
    advances returning "LLF", while with a wall behind it too
    [go_straight] raises [ValueError] and no action is returned.  No
    action string other than these four is ever returned. *)
Theorem move_priority (m : Maze) (r : Runner) (l f rt : bool) :
  sense_walls m r = Ok (l, f, rt) →
  let m' := with_prev_runner (get_x r, get_y r) m in
  (if negb l then
     ∃ r1 r2, turn "Left" r = (Ok tt, r1) ∧ forward r1 = (Ok tt, r2) ∧
              move (m, r) = (Ok "LF", (m', r2))
   else if negb f then
     ∃ r1, forward r = (Ok tt, r1) ∧ move (m, r) = (Ok "F", (m', r1))
   else if negb rt then
     ∃ r1 r2, turn "Right" r = (Ok tt, r1) ∧ forward r1 = (Ok tt, r2) ∧
              move (m, r) = (Ok "RF", (m', r2))
   else
     ∃ r1 r2, turn "Left" r = (Ok tt, r1) ∧ turn "Left" r1 = (Ok tt, r2) ∧
       if wall_behind m r
       then move (m, r) = (Raise (ValueError ""), (m', r2))
       else ∃ r3, forward r2 = (Ok tt, r3) ∧
                  move (m, r) = (Ok "LLF", (m', r3))) ∧
  (∀ a w', move (m, r) = (Ok a, w') → a ∈ action_codes).
Proof.
  intros Hs m'. split; [| apply move_action_codes].
  pose proof (sense_walls_Ok _ _ _ Hs) as Hv.
  pose proof (left_of_valid _ Hv) as Hvl.
  pose proof (left_of_valid _ Hvl) as Hvll.
  pose proof (right_of_valid _ Hv) as Hvr.
  pose proof (move_valid m r Hv) as Hm. simpl in Hm. fold m' in Hm.
  rewrite (sense_walls_valid m r Hv) in Hs. unfold wall_behind.
  destruct (rotate _ _) as [[[l' f'] rt'] b]. injection Hs as -> -> ->.
  set (rl := set_orientation (left_of (orientation r)) r) in *.
  set (rr := set_orientation (right_of (orientation r)) r) in *.
  set (rb := set_orientation (left_of (left_of (orientation r))) r) in *.
  assert (Hl1 : turn "Left" r = (Ok tt, rl)) by by apply turn_left.
  assert (Hl2 : turn "Left" rl = (Ok tt, rb)) by by apply turn_left.
  assert (Hr1 : turn "Right" r = (Ok tt, rr)) by by apply turn_right.
  destruct l; simpl in *.
  2:{ exists rl, (advanced rl). by rewrite forward_valid. }
  destruct f; simpl in *.
  2:{ exists (advanced r). by rewrite forward_valid. }
  destruct rt; simpl in *.
  2:{ exists rr, (advanced rr). by rewrite forward_valid. }
  exists rl, rb. do 2 (split; [done |]).
  destruct b; simpl in *; [done |].
  exists (advanced rb). by rewrite forward_valid.
Qed.

Lemma move_priority_witness :
  move (init 2 2, create_runner 0 0 "N")
  = (Ok "F", (with_prev_runner (0, 0) (init 2 2), create_runner 0 1 "N")).
Proof.
  assert (Hs : sense_walls (init 2 2) (create_runner 0 0 "N")
               = Ok (true, false, false)) by (vm_compute; reflexivity).
  destruct (move_priority _ _ _ _ _ Hs) as [[r1 [Hf Hm]] _].
  vm_compute in Hf. injection Hf as <-. exact Hm.
Defined.

(** C1 read literally fails in a cell walled on all four sides: in the
    1 by 1 maze the runner turns around and [go_straight] raises. *)
Lemma move_priority_as_stated_fails :
  ¬ move_priority_as_stated (init 1 1) (create_runner 0 0 "N").
Proof.
  intros H. specialize (H true true true). simpl in H.
  destruct H as (r1 & r2 & r3 & m' & _ & _ & _ & Hm); [by vm_compute |].
  vm_compute in Hm. discriminate.
Qed.

(** C5, as the code has it: whenever [move] returns, the runner has gone
    one cell in the direction it now faces, across a side of its former
    cell that carries no wall, so it never advances into a wall; the
    wall-ahead [ValueError] of [go_straight] is raised from [move] exactly
    when the runner's cell is walled on all four sides (the turn-around
    branch, whose side behind was not sensed), and from no other branch. *)
Theorem move_never_into_wall (m : Maze) (r : Runner) :
  orientation r ∈ orientations →
  (∀ a m' r', move (m, r) = (Ok a, (m', r')) →
     wall_toward m (x r, y r) (orientation r') = false ∧
     (x r', y r') = advance (orientation r') (x r, y r)) ∧
  ((∃ w', move (m, r) = (Raise (ValueError ""), w')) ↔
   get_walls m (x r) (y r) = (true, true, true, true)).
Proof.
  intros Hv.
  pose proof (move_valid m r Hv) as Hm. simpl in Hm.
  pose proof (rotate_all_walls _ (get_walls m (x r) (y r)) Hv) as Hall.
  pose proof (rotate_left_of _ (get_walls m (x r) (y r)) Hv) as Hl.
  pose proof (rotate_right_of _ (get_walls m (x r) (y r)) Hv) as Hr.
  pose proof (rotate_left_left _ (get_walls m (x r) (y r)) Hv) as Hb.
  unfold wall_toward, get_x, get_y in *; simpl.
  destruct (rotate (orientation r) _) as [[[l f] rt] b] eqn:Hrot.
  rewrite <- Hall. simpl in *.
  destruct l; simpl in Hm.
  2:{ rewrite Hm. split.
      - intros a m' r' [= <- <- <-]. by rewrite advanced_position.
      - split; [by intros [w' ?] | discriminate]. }
  destruct f; simpl in Hm.
  2:{ rewrite Hm. split.
      - intros a m' r' [= <- <- <-].
        rewrite advanced_position. unfold advanced; simpl. by rewrite Hrot.
      - split; [by intros [w' ?] | discriminate]. }
  destruct rt; simpl in Hm.
  2:{ rewrite Hm. split.
      - intros a m' r' [= <- <- <-]. by rewrite advanced_position.
      - split; [by intros [w' ?] | discriminate]. }
  destruct b; simpl in Hm; rewrite Hm.
  - split; [discriminate |]. split; [done | by eexists].
  - split.
    + intros a m' r' [= <- <- <-]. by rewrite advanced_position.
    + split; [by intros [w' ?] | discriminate].
Qed.

Lemma move_never_into_wall_witness :
  wall_toward (init 2 2) (1, 1) "W" = false ∧ (0, 1) = advance "W" (1, 1).
Proof.
  assert (Hv : orientation (create_runner 1 1 "N") ∈ orientations)
    by (apply orientation_cases; simpl; tauto).
  apply (proj1 (move_never_into_wall (init 2 2) (create_runner 1 1 "N") Hv)
           "LF" (with_prev_runner (1, 1) (init 2 2)) (create_runner 0 1 "W")).
  vm_compute. reflexivity.
Defined.

(** C5 read literally fails: between the two cells of a 2 by 1 maze stands
    a wall, the runner in the left cell faces east, and [move] ends in
    the wall-ahead error of [go_straight]. *)
Lemma wall_error_unreachable_as_stated_fails :
  ¬ wall_error_unreachable_as_stated
      (add_vertical_wall 0 1 (init 2 1)) (create_runner 0 0 "E").
Proof.
  intros H.
  apply (H (with_prev_runner (0, 0) (add_vertical_wall 0 1 (init 2 1)),
            create_runner 0 0 "W")).
  vm_compute. reflexivity.
Qed.

(** ** The path simplifier *)

Section simplifier_facts.

Implicit Types (c : coord) (t out : list coord) (idx : gmap coord nat)
  (st : list coord * gmap coord nat).

(** The loop of [shortest_path] and the simplifier of the specification
    go in lock step: same output, same indices. *)
Lemma loop_removal_step_refines st c :
  loop_removal_step (Z.of_nat <$> st.2, st.1) c
  = (Z.of_nat <$> (simplify_step st c).2, (simplify_step st c).1).
Proof.
  destruct st as [out idx]. unfold loop_removal_step, simplify_step; simpl.
  rewrite lookup_fmap. destruct (idx !! c) as [k |]; simpl.
  - f_equal. unfold slice_to. case_decide; [lia |].
    f_equal. lia.
  - destruct c as [cx cy]; simpl. rewrite fmap_insert. do 2 f_equal.
    unfold len. rewrite length_app; simpl. lia.
Qed.

Lemma loop_removal_fold_refines t st :
  foldl loop_removal_step (Z.of_nat <$> st.2, st.1) t
  = (Z.of_nat <$> (foldl simplify_step st t).2, (foldl simplify_step st t).1).
Proof.
  revert st. induction t as [| c t IH]; intros st; cbn [foldl]; [done |].
  rewrite loop_removal_step_refines. apply (IH (simplify_step st c)).
Qed.

Lemma loop_removal_simplify t : loop_removal t = simplify t.
Proof.
  unfold loop_removal, simplify, simplify_state.
  pose proof (loop_removal_fold_refines t ([], ∅)) as H. simpl in H.
  rewrite fmap_empty in H. by rewrite H.
Qed.

(** A recorded index is never changed by a later step. *)
Lemma loop_removal_step_keeps_index (s : gmap coord Z * list coord) c c' k :
  s.1 !! c' = Some k → (loop_removal_step s c).1 !! c' = Some k.
Proof.
  destruct s as [visited direct_path]; simpl. intros Hk.
  unfold loop_removal_step. destruct (visited !! c) eqn:Hc; simpl; [done |].
  rewrite lookup_insert_ne; [done | congruence].
Qed.

Lemma scan_inv_init : scan_inv ([], ∅).
Proof. split; [constructor | intros c Hc; by apply elem_of_nil in Hc]. Qed.

Lemma scan_inv_step st c : scan_inv st → scan_inv (simplify_step st c).
Proof.
  destruct st as [out idx]. intros [Hnd Hidx]; simpl in *.
  unfold simplify_step; simpl. destruct (idx !! c) as [k |] eqn:Hc; simpl.
  - split; simpl.
    + eapply sublist_NoDup; [done | apply sublist_take].
    + intros c' [i [Hi Hlt]]%elem_of_take.
      destruct (Hidx c') as [k' [Hk' Hout]].
      { apply list_elem_of_lookup. eauto. }
      exists k'. split; [done |].
      assert (i = k') as -> by (eapply NoDup_lookup; eauto).
      by rewrite lookup_take_lt.
  - assert (c ∉ out) as Hfresh.
    { intros Hin. destruct (Hidx c Hin) as [k [Hk _]]. congruence. }
    split; simpl.
    + apply NoDup_app. split; [done |]. split; [| apply NoDup_singleton].
      intros c' Hin ->%list_elem_of_singleton. done.
    + intros c' [Hin | ->%list_elem_of_singleton]%elem_of_app.
      * destruct (Hidx c' Hin) as [k' [Hk' Hout]].
        exists k'. rewrite lookup_insert_ne by congruence.
        split; [done |]. rewrite lookup_app_l; [done |].
        by eapply lookup_lt_Some.
      * exists (length out). rewrite lookup_insert_eq. split; [done |].
        by rewrite list_lookup_middle.
Qed.

Lemma scan_inv_fold t st : scan_inv st → scan_inv (foldl simplify_step st t).
Proof.
  revert st. induction t as [| c t IH]; intros st Hst; simpl; [done |].
  apply IH. by apply scan_inv_step.
Qed.

Lemma simplify_NoDup t : NoDup (simplify t).
Proof. apply (scan_inv_fold t ([], ∅) scan_inv_init). Qed.

(** The recorded coordinates are those met so far. *)
Lemma simplify_step_seen st c c' :
  is_Some ((simplify_step st c).2 !! c') ↔ c' = c ∨ is_Some (st.2 !! c').
Proof.
  destruct st as [out idx]; unfold simplify_step; simpl.
  destruct (idx !! c) as [k |] eqn:Hc; simpl.
  - split; [tauto |]. intros [-> | H]; [by rewrite Hc | done].
  - destruct (decide (c' = c)) as [-> | Hne].
    + rewrite lookup_insert_eq. split; [tauto | eauto].
    + rewrite lookup_insert_ne by congruence. tauto.
Qed.

Lemma simplify_fold_seen t st c' :
  is_Some ((foldl simplify_step st t).2 !! c') ↔ c' ∈ t ∨ is_Some (st.2 !! c').
Proof.
  revert st. induction t as [| c t IH]; intros st; simpl.
  - rewrite elem_of_nil. tauto.
  - rewrite IH, simplify_step_seen, elem_of_cons. tauto.
Qed.

Lemma simplify_state_seen t c :
  is_Some ((simplify_state t).2 !! c) ↔ c ∈ t.
Proof.
  unfold simplify_state. rewrite simplify_fold_seen; simpl.
  rewrite lookup_empty. split; [intros [? | [? [=]]]; done | tauto].
Qed.

(** The first coordinate of the output never moves. *)
Lemma simplify_step_head st c h :
  head st.1 = Some h → head (simplify_step st c).1 = Some h.
Proof.
  destruct st as [[| h' out] idx]; simpl; [done |]. intros [= ->].
  unfold simplify_step; simpl. destruct (idx !! c) as [k |]; simpl; [| done].
  by rewrite Nat.add_1_r.
Qed.

Lemma simplify_fold_head t st h :
  head st.1 = Some h → head (foldl simplify_step st t).1 = Some h.
Proof.
  revert st. induction t as [| c t IH]; intros st Hh; simpl; [done |].
  apply IH. by apply simplify_step_head.
Qed.

Lemma simplify_head t : head (simplify t) = head t.
Proof.
  destruct t as [| c t]; [done |]. unfold simplify, simplify_state; simpl.
  by apply simplify_fold_head.
Qed.

(** Where the output ends after one more coordinate. *)
Lemma simplify_step_last st c :
  scan_inv st →
  last (simplify_step st c).1 = Some c ↔ st.2 !! c = None ∨ c ∈ st.1.
Proof.
  destruct st as [out idx]. intros [Hnd Hidx]; simpl in *.
  unfold simplify_step; simpl. destruct (idx !! c) as [k |] eqn:Hc; simpl.
  - split.
    + intros Hl. right.
      apply last_Some in Hl as [l' Hl'].
      assert (c ∈ take (k + 1) out) as Hin
        by (rewrite Hl'; apply elem_of_app; right; by apply list_elem_of_singleton).
      apply elem_of_take in Hin as [i [Hi _]].
      apply list_elem_of_lookup. eauto.
    + intros [[=] | Hin].
      destruct (Hidx c Hin) as [k' [Hk' Hout]].
      assert (k' = k) as -> by congruence.
      rewrite Nat.add_1_r, (take_S_r _ _ _ Hout). apply last_snoc.
  - rewrite last_snoc. tauto.
Qed.

Lemma simplify_snoc t c :
  simplify (t ++ [c]) = (simplify_step (simplify_state t) c).1.
Proof. unfold simplify, simplify_state. by rewrite foldl_snoc. Qed.

Lemma simplify_last t c :
  last (simplify (t ++ [c])) = Some c ↔ c ∉ t ∨ c ∈ simplify t.
Proof.
  rewrite simplify_snoc, simplify_step_last
    by apply (scan_inv_fold t ([], ∅) scan_inv_init).
  rewrite eq_None_not_Some, simplify_state_seen. done.
Qed.

(** On a trace without repetition every step appends. *)
Lemma simplify_fold_NoDup t st :
  (∀ c, is_Some (st.2 !! c) → c ∈ st.1) →
  NoDup (st.1 ++ t) →
  (foldl simplify_step st t).1 = st.1 ++ t.
Proof.
  revert st. induction t as [| c t IH]; intros [out idx] Hseen Hnd; simpl in *.
  - by rewrite app_nil_r.
  - assert (idx !! c = None) as Hc.
    { apply eq_None_not_Some. intros Hin%Hseen.
      apply NoDup_app in Hnd as (_ & Hdisj & _).
      apply (Hdisj c Hin). by left. }
    unfold simplify_step at 2; simpl. rewrite Hc.
    rewrite IH; simpl.
    + by rewrite <- app_assoc.
    + intros c'. destruct (decide (c' = c)) as [-> | Hne].
      * intros _. apply elem_of_app. right. by apply list_elem_of_singleton.
      * rewrite lookup_insert_ne by congruence. intros Hin%Hseen.
        apply elem_of_app. by left.
    + by rewrite <- app_assoc.
Qed.

Lemma simplify_NoDup_id t : NoDup t → simplify t = t.
Proof.
  intros Hnd. unfold simplify, simplify_state.
  rewrite simplify_fold_NoDup; simpl; [done | | done].
  intros c. rewrite lookup_empty. by intros [? [=]].
Qed.

End simplifier_facts.

(** C3: the loop of [shortest_path] is the simplifier of the
    specification: scanning the trace from the left, the pair of
    [visited] and [direct_path] it reaches equals the map of first output
    indices and the output sequence obtained by appending an unseen
    coordinate and recording its output index, and by cutting the output
    back to length k + 1 at a coordinate recorded at index k; a recorded
    index is never changed by a later step; and on the trace
    [A, B, C, B, D] of four distinct coordinates the output is
    [A, B, D]. *)
Theorem loop_removal_first_occurrence (t : list coord) (A B C D : coord) :
  foldl loop_removal_step (∅, []) t
    = (Z.of_nat <$> (simplify_state t).2, (simplify_state t).1) ∧
  (∀ s c c' k, s.1 !! c' = Some k → (loop_removal_step s c).1 !! c' = Some k) ∧
  (NoDup [A; B; C; D] → loop_removal [A; B; C; B; D] = [A; B; D]).
Proof.
  split; [| split].
  - pose proof (loop_removal_fold_refines t ([], ∅)) as H. simpl in H.
    by rewrite fmap_empty in H.
  - apply loop_removal_step_keeps_index.
  - rewrite !NoDup_cons, !not_elem_of_cons. intros Hd.
    assert (A ≠ B ∧ A ≠ C ∧ A ≠ D ∧ B ≠ C ∧ B ≠ D ∧ C ≠ D)
      as (HAB & HAC & HAD & HBC & HBD & HCD) by tauto.
    rewrite loop_removal_simplify. unfold simplify, simplify_state.
    cbn [foldl]. unfold simplify_step; simpl.
    repeat (rewrite ?lookup_empty, ?lookup_insert_eq, ?lookup_insert_ne
              by congruence; simpl).
    reflexivity.
Qed.

Lemma loop_removal_first_occurrence_witness :
  loop_removal [(0, 0); (0, 1); (1, 1); (0, 1); (0, 2)]
  = [(0, 0); (0, 1); (0, 2)].
Proof.
  apply (proj2 (proj2
           (loop_removal_first_occurrence [] (0, 0) (0, 1) (1, 1) (0, 2)))).
  apply (bool_decide_unpack _). vm_compute. reflexivity.
Defined.

(** C4, as the code has it: on every non-empty trace the output of the
    simplifier has no repeated coordinate and starts with the first
    coordinate of the trace; it ends with the last coordinate of the
    trace exactly when that coordinate occurs nowhere earlier in the
    trace or is still in the output computed for the trace without its
    last element. *)
Theorem loop_removal_endpoints (t : list coord) :
  t ≠ [] →
  NoDup (loop_removal t) ∧
  head (loop_removal t) = head t ∧
  (∀ t' c, t = t' ++ [c] →
     last (loop_removal t) = last t ↔ c ∉ t' ∨ c ∈ loop_removal t').
Proof.
  intros _. rewrite loop_removal_simplify.
  split; [apply simplify_NoDup |]. split; [apply simplify_head |].
  intros t' c ->. rewrite last_snoc, loop_removal_simplify.
  apply simplify_last.
Qed.

Lemma loop_removal_endpoints_witness :
  NoDup (loop_removal [(0, 0); (0, 1); (0, 0); (1, 0)]) ∧
  last (loop_removal [(0, 0); (0, 1); (0, 0); (1, 0)]) = Some (1, 0).
Proof.
  assert (Hne : [(0, 0); (0, 1); (0, 0); (1, 0)] ≠ @nil coord) by discriminate.
  destruct (loop_removal_endpoints _ Hne) as (Hnd & _ & Hlast).
  split; [exact Hnd |].
  apply (Hlast [(0, 0); (0, 1); (0, 0)] (1, 0) eq_refl).
  left. apply (bool_decide_unpack _). vm_compute. reflexivity.
Defined.

(** C4 read literally fails: on the trace A, B, C, B, C the second visit
    of C finds the index recorded before the loop through B was cut, the
    output stays [A, B] and does not end with C. *)
Lemma loop_free_endpoints_as_stated_fails :
  ¬ loop_free_endpoints_as_stated [(0, 0); (0, 1); (0, 2); (0, 1); (0, 2)].
Proof.
  intros H. destruct H as (_ & _ & Hlast); [discriminate |].
  vm_compute in Hlast. discriminate.
Qed.

(** C6: the simplifier returns every trace without repeated coordinate
    unchanged, and applied to its own output it returns that output. *)
Theorem loop_removal_identity_idempotent (t : list coord) :
  (NoDup t → loop_removal t = t) ∧
  loop_removal (loop_removal t) = loop_removal t.
Proof.
  split.
  - intros Hnd. rewrite loop_removal_simplify. by apply simplify_NoDup_id.
  - rewrite !loop_removal_simplify. apply simplify_NoDup_id, simplify_NoDup.
Qed.

Lemma loop_removal_identity_idempotent_witness :
  loop_removal [(0, 0); (0, 1); (1, 1)] = [(0, 0); (0, 1); (1, 1)].
Proof.
  apply (proj1 (loop_removal_identity_idempotent [(0, 0); (0, 1); (1, 1)])).
  apply (bool_decide_unpack _). vm_compute. reflexivity.
Defined.

(** ** The maze object across method calls *)

Section frame_facts.

Implicit Types (m : Maze) (r : Runner) (w : World).

#[local] Instance maze_frame_refl : Reflexive maze_frame.
Proof. intros m. by repeat split. Qed.

#[local] Instance maze_frame_trans : Transitive maze_frame.
Proof.
  intros m1 m2 m3 (Hw & Hh & Hhw & Hvw & Hp & He) (Hw' & Hh' & Hhw' & Hvw' & Hp' & He').
  repeat split; try congruence; by etrans.
Qed.

Lemma frame_add_horizontal_wall m x0 l :
  maze_frame m (add_horizontal_wall x0 l m).
Proof.
  unfold add_horizontal_wall. case_decide; [| done].
  repeat split; try done. unfold h_walls, set_add; simpl.
  apply union_subseteq_r.
Qed.

Lemma frame_add_vertical_wall m y0 l :
  maze_frame m (add_vertical_wall y0 l m).
Proof.
  unfold add_vertical_wall. case_decide; [| done].
  repeat split; try done. unfold v_walls, set_add; simpl.
  apply union_subseteq_r.
Qed.

Lemma frame_with_prev_runner m c : maze_frame m (with_prev_runner c m).
Proof. by repeat split. Qed.

Lemma frame_path_append m c : maze_frame m (path_append c m).
Proof. repeat split; try done. by apply prefix_app_r. Qed.

Lemma frame_exploration_data_append m row :
  maze_frame m (exploration_data_append row m).
Proof. repeat split; try done. by apply prefix_app_r. Qed.

Lemma keeps_maze_ret {A} (a : A) : keeps_maze (mret a).
Proof. by intros w. Qed.

Lemma keeps_maze_raise {A} e : keeps_maze (@raise World A e).
Proof. by intros w. Qed.

Lemma keeps_maze_bind {A B} (c : M World A) (k : A → M World B) :
  keeps_maze c → (∀ a, keeps_maze (k a)) → keeps_maze (c ≫= k).
Proof.
  intros Hc Hk w. unfold mbind, M_bind, bind.
  specialize (Hc w). destruct (c w) as [[a | e] w']; simpl in *.
  - by rewrite Hk.
  - done.
Qed.

Lemma keeps_maze_on_runner {A} (c : M Runner A) : keeps_maze (on_runner c).
Proof. intros w. unfold on_runner. by destruct (c w.2). Qed.

Lemma render_if_enabled_id w : render_if_enabled w = (Ok tt, w).
Proof.
  unfold render_if_enabled, render, mbind, M_bind, bind, get.
  by destruct (_ || _).
Qed.

Lemma keeps_maze_go_straight : keeps_maze go_straight.
Proof.
  intros w. unfold go_straight, mbind, M_bind, bind, get, lift_result; simpl.
  destruct (sense_walls w.1 w.2) as [[[l f] rt] | e]; simpl; [| done].
  destruct f; simpl; [done |]. apply keeps_maze_on_runner.
Qed.

Lemma move_maze w :
  (move w).2.1 = with_prev_runner (get_x w.2, get_y w.2) w.1.
Proof.
  unfold move, mbind at 1 2 3, M_bind at 1 2 3, bind at 1 2 3.
  unfold get, on_maze, lift_result; simpl.
  destruct (sense_walls w.1 w.2) as [[[l f] rt] | e]; simpl; [| done].
  set (w1 := (with_prev_runner _ _, _)).
  change (with_prev_runner _ w.1) with w1.1.
  destruct l, f, rt; simpl;
    repeat first [ apply keeps_maze_go_straight
                 | apply keeps_maze_on_runner
                 | apply keeps_maze_ret
                 | apply keeps_maze_bind; [| intros ?] ].
Qed.

Lemma frame_go_straight m r res m' r' :
  go_straight (m, r) = (res, (m', r')) → maze_frame m m'.
Proof.
  intros H. pose proof (keeps_maze_go_straight (m, r)) as Hk.
  rewrite H in Hk; simpl in Hk. by subst.
Qed.

Lemma frame_move m r res m' r' :
  move (m, r) = (res, (m', r')) → maze_frame m m'.
Proof.
  intros H. pose proof (move_maze (m, r)) as Hk.
  rewrite H in Hk; simpl in Hk. subst. apply frame_with_prev_runner.
Qed.

(** The loop body of [explore], spelled out. *)
Lemma explore_body_eq num w :
  explore_body num w
  = let w1 := (path_append (get_x w.2, get_y w.2) w.1, w.2) in
    match move w1 with
    | (Ok action, w2) =>
        match prev_runner w2.1 with
        | Some prev =>
            (Ok action,
             (exploration_data_append
                (pretty (num + 1), pretty prev.1, pretty prev.2, action) w2.1,
              w2.2))
        | None =>
            (Raise (AttributeError
                      "'Maze' object has no attribute 'prev_runner'"), w2)
        end
    | (Raise e, w2) => (Raise e, w2)
    end.
Proof.
  unfold explore_body, mbind, M_bind, bind.
  rewrite render_if_enabled_id. unfold get, on_maze; simpl.
  destruct (move _) as [[action | e] w2]; simpl; [| done].
  unfold read_prev_runner, mbind, M_bind, bind, get, raise; simpl.
  by destruct (prev_runner w2.1).
Qed.

Lemma frame_explore_body num m r res m' r' :
  explore_body num (m, r) = (res, (m', r')) → maze_frame m m'.
Proof.
  rewrite explore_body_eq; simpl.
  destruct (move _) as [[action | e] [m1 r1]] eqn:Hmove; simpl;
    apply frame_move in Hmove.
  - destruct (prev_runner m1) as [prev |]; simpl; intros [= <- <- <-].
    + etrans; [apply frame_path_append |].
      etrans; [exact Hmove |]. apply frame_exploration_data_append.
    + etrans; [apply frame_path_append | done].
  - intros [= <- <- <-]. etrans; [apply frame_path_append | done].
Qed.

(** [explore] after its loop, spelled out. *)
Lemma explore_eq fuel goal w :
  explore fuel goal w
  = match explore_loop fuel goal 0 "" w with
    | None => None
    | Some (Raise e, w') => Some (Raise e, w')
    | Some (Ok (num, actions), w') =>
        Some (Ok actions, (path_append (get_x w'.2, get_y w'.2) w'.1, w'.2))
    end.
Proof.
  unfold explore.
  destruct (explore_loop _ _ _ _ _) as [[[[num actions] | e] w'] |]; try done.
  unfold mbind, M_bind, bind, on_maze. by rewrite render_if_enabled_id.
Qed.

(** [shortest_path] after the exploration, spelled out. *)
Lemma shortest_path_eq fuel starting goal m :
  shortest_path fuel starting goal m
  = let starting := default (0, 0) starting in
    let goal := default (width m - 1, height m - 1) goal in
    match explore fuel goal (m, create_runner starting.1 starting.2 "N") with
    | None => None
    | Some (Raise e, w') => Some (Raise e, w'.1)
    | Some (Ok _, w') => Some (Ok (loop_removal (path w'.1)), w'.1)
    end.
Proof.
  unfold shortest_path; simpl.
  destruct (explore _ _ _) as [[[actions | e] w'] |]; try done.
  unfold mbind, M_bind, bind. by rewrite render_if_enabled_id.
Qed.

Lemma frame_explore_loop fuel goal num actions m r res m' r' :
  explore_loop fuel goal num actions (m, r) = Some (res, (m', r')) →
  maze_frame m m'.
Proof.
  revert num actions m r.
  induction fuel as [| fuel IH]; intros num actions m r; simpl;
    case_decide; try discriminate; try (by intros [= <- <- <-]).
  destruct (explore_body num (m, r)) as [[action | e] [m1 r1]] eqn:Hbody.
  - intros Hloop. etrans; [by eapply frame_explore_body |]. by eapply IH.
  - intros [= <- <- <-]. by eapply frame_explore_body.
Qed.

Lemma frame_explore fuel goal m r res m' r' :
  explore fuel goal (m, r) = Some (res, (m', r')) → maze_frame m m'.
Proof.
  rewrite explore_eq.
  destruct (explore_loop fuel goal 0 "" (m, r))
    as [[[[num actions] | e] [m1 r1]] |] eqn:Hloop; try discriminate;
    apply frame_explore_loop in Hloop; simpl; intros [= <- <- <-].
  - etrans; [exact Hloop | apply frame_path_append].
  - done.
Qed.

Lemma frame_shortest_path fuel starting goal m res m' :
  shortest_path fuel starting goal m = Some (res, m') → maze_frame m m'.
Proof.
  rewrite shortest_path_eq; simpl.
  destruct (explore _ _ _) as [[[actions | e] [m1 r1]] |] eqn:Hexp;
    try discriminate; apply frame_explore in Hexp; simpl;
    by intros [= <- <-].
Qed.

Lemma method_step_frame m m' : method_step m m' → maze_frame m m'.
Proof.
  destruct 1;
    eauto using frame_add_horizontal_wall, frame_add_vertical_wall,
      frame_go_straight, frame_move, frame_explore, frame_shortest_path.
Qed.

Lemma method_steps_frame m m' : rtc method_step m m' → maze_frame m m'.
Proof.
  induction 1 as [| m1 m2 m3 Hstep _ IH]; [done |].
  etrans; [by apply method_step_frame | done].
Qed.

#[local] Instance walls_frame_refl : Reflexive walls_frame.
Proof. intros m. by repeat split. Qed.

#[local] Instance walls_frame_trans : Transitive walls_frame.
Proof.
  intros m1 m2 m3 (Hw & Hh & Hhw & Hvw) (Hw' & Hh' & Hhw' & Hvw').
  repeat split; try congruence; by etrans.
Qed.

Lemma maze_frame_walls m m' : maze_frame m m' → walls_frame m m'.
Proof. intros (Hw & Hh & Hhw & Hvw & _). by repeat split. Qed.

Lemma maze_step_cases m m' :
  maze_step m m' →
  method_step m m' ∨ (∃ p, m' = path_setter p m)
  ∨ (∃ d, m' = exploration_data_setter d m).
Proof. destruct 1; eauto. Qed.

(** The setters assign a buffer and nothing else. *)
Lemma maze_step_walls_frame m m' : maze_step m m' → walls_frame m m'.
Proof.
  intros [Hm | [[p ->] | [d ->]]]%maze_step_cases.
  - by apply maze_frame_walls, method_step_frame.
  - by repeat split.
  - by repeat split.
Qed.

Lemma maze_steps_walls_frame m m' : rtc maze_step m m' → walls_frame m m'.
Proof.
  induction 1 as [| m1 m2 m3 Hstep _ IH]; [done |].
  etrans; [by apply maze_step_walls_frame | done].
Qed.

End frame_facts.

Section construction_facts.

Implicit Types (m : Maze) (s : gset coord) (c : coord).

(** The two [for] loops of [__init__]: what a loop adding two walls per
    index leaves in the set. *)
Lemma elem_of_add_two (g1 g2 : Z → coord) (l : list Z) s c :
  c ∈ foldl (λ s i, set_add (g1 i) (set_add (g2 i) s)) s l
  ↔ c ∈ s ∨ ∃ i, i ∈ l ∧ (c = g1 i ∨ c = g2 i).
Proof.
  revert s. induction l as [| i l IH]; intros s; simpl.
  - split; [tauto |]. intros [? | (i & []%elem_of_nil & _)]; done.
  - rewrite IH. unfold set_add. rewrite !elem_of_union, !elem_of_singleton.
    split.
    + intros [[-> | [-> | ?]] | (j & Hj & Hc)]; [| | tauto |].
      * right. exists i. split; [left | tauto].
      * right. exists i. split; [left | tauto].
      * right. exists j. split; [by right | done].
    + intros [? | (j & [-> | Hj]%elem_of_cons & Hc)]; [tauto | tauto |].
      right. by exists j.
Qed.

Lemma elem_of_range (i n : Z) : i ∈ range n ↔ 0 ≤ i < n.
Proof. unfold range. rewrite elem_of_seqZ. lia. Qed.

Lemma init_h_walls w h c :
  c ∈ h_walls (init w h) ↔ ∃ i, 0 ≤ i < w ∧ (c = (i, h) ∨ c = (i, 0)).
Proof.
  unfold h_walls, init; simpl.
  rewrite (elem_of_add_two (λ i, (i, h)) (λ i, (i, 0))).
  setoid_rewrite elem_of_range. split.
  - by intros [[]%not_elem_of_empty |].
  - by right.
Qed.

Lemma init_v_walls w h c :
  c ∈ v_walls (init w h) ↔ ∃ j, 0 ≤ j < h ∧ (c = (w, j) ∨ c = (0, j)).
Proof.
  unfold v_walls, init; simpl.
  rewrite (elem_of_add_two (λ j, (w, j)) (λ j, (0, j))).
  setoid_rewrite elem_of_range. split.
  - by intros [[]%not_elem_of_empty |].
  - by right.
Qed.

Lemma boundary_walls_init w h : boundary_walls w h (init w h).
Proof.
  split.
  - intros i Hi. rewrite !init_h_walls. split; exists i; tauto.
  - intros j Hj. rewrite !init_v_walls. split; exists j; tauto.
Qed.

Lemma boundary_walls_frame w h m m' :
  walls_frame m m' → boundary_walls w h m → boundary_walls w h m'.
Proof.
  intros (_ & _ & Hh & Hv) [Hbh Hbv]. split.
  - intros i Hi. destruct (Hbh i Hi). split; by apply Hh.
  - intros j Hj. destruct (Hbv j Hj). split; by apply Hv.
Qed.

Lemma add_horizontal_wall_out_of_range m x0 l :
  ¬ (0 ≤ x0 < width m) ∨ ¬ (1 ≤ l < height m) →
  add_horizontal_wall x0 l m = m.
Proof.
  unfold add_horizontal_wall, width, height. intros Hout.
  case_decide; [tauto | done].
Qed.

Lemma add_vertical_wall_out_of_range m y0 l :
  ¬ (0 ≤ y0 < height m) ∨ ¬ (1 ≤ l < width m) →
  add_vertical_wall y0 l m = m.
Proof.
  unfold add_vertical_wall, width, height. intros Hout.
  case_decide; [tauto | done].
Qed.

End construction_facts.

(** C7: for width and height at least 1, the maze just constructed has
    its four boundary wall lines (horizontal lines 0 and height over every
    column, vertical lines 0 and width over every row), and so has every
    maze reached from it by calls of the methods of [Maze], whose size is
    still the same; and [add_horizontal_wall] (resp. [add_vertical_wall])
    called on any maze with x outside [0, width) or the line outside
    [1, height) (resp. y outside [0, height) or the line outside
    [1, width)) returns normally and leaves the maze, hence both wall
    sets, as it was. *)
Theorem boundary_walls_always_present (w h : Z) :
  1 ≤ w → 1 ≤ h →
  boundary_walls w h (init w h) ∧
  (∀ m, rtc maze_step (init w h) m →
     boundary_walls w h m ∧ width m = w ∧ height m = h) ∧
  (∀ m x0 l, ¬ (0 ≤ x0 < width m) ∨ ¬ (1 ≤ l < height m) →
     h_walls (add_horizontal_wall x0 l m) = h_walls m ∧
     v_walls (add_horizontal_wall x0 l m) = v_walls m) ∧
  (∀ m y0 l, ¬ (0 ≤ y0 < height m) ∨ ¬ (1 ≤ l < width m) →
     h_walls (add_vertical_wall y0 l m) = h_walls m ∧
     v_walls (add_vertical_wall y0 l m) = v_walls m).
Proof.
  intros _ _. split; [apply boundary_walls_init |]. split; [| split].
  - intros m Hsteps. apply maze_steps_walls_frame in Hsteps.
    split; [by eapply boundary_walls_frame, boundary_walls_init |].
    destruct Hsteps as (Hw & Hh & _). unfold width, height.
    by rewrite Hw, Hh.
  - intros m x0 l Hout. by rewrite add_horizontal_wall_out_of_range.
  - intros m y0 l Hout. by rewrite add_vertical_wall_out_of_range.
Qed.

Lemma boundary_walls_always_present_witness :
  boundary_walls 2 3 (add_horizontal_wall 5 1 (add_vertical_wall 0 1 (init 2 3))) ∧
  h_walls (add_horizontal_wall 5 1 (init 2 3)) = h_walls (init 2 3).
Proof.
  destruct (boundary_walls_always_present 2 3) as (_ & Hsteps & Hh & _);
    [lia | lia |].
  split.
  - apply Hsteps.
    eapply rtc_l; [apply step_method, step_add_vertical_wall |].
    eapply rtc_l; [apply step_method, step_add_horizontal_wall |].
    apply rtc_refl.
  - apply Hh. left. simpl. lia.
Defined.

(** ** Whole runs *)

Section run_facts.

Implicit Types (m : Maze) (r : Runner) (c : coord).

(** A runner already on the goal: the loop of [explore] is not entered,
    whatever the fuel. *)
Lemma explore_loop_at_goal fuel goal num actions m r :
  (get_x r, get_y r) = goal →
  explore_loop fuel goal num actions (m, r) = Some (Ok (num, actions), (m, r)).
Proof. intros Hg. destruct fuel; simpl; case_decide; done. Qed.

Lemma explore_at_goal fuel goal m r :
  (get_x r, get_y r) = goal →
  explore fuel goal (m, r) = Some (Ok "", (path_append goal m, r)).
Proof.
  intros Hg. rewrite explore_eq, explore_loop_at_goal by done.
  simpl. by rewrite Hg.
Qed.

Lemma loop_removal_singleton c : loop_removal [c] = [c].
Proof.
  rewrite loop_removal_simplify. apply simplify_NoDup_id, NoDup_singleton.
Qed.

Lemma shortest_path_at_goal fuel c m :
  path m = [] →
  shortest_path fuel (Some c) (Some c) m = Some (Ok [c], path_append c m).
Proof.
  intros Hp. rewrite shortest_path_eq; simpl.
  rewrite (explore_at_goal fuel c m) by by destruct c.
  simpl. unfold path in *; simpl. rewrite Hp; simpl.
  by rewrite loop_removal_singleton.
Qed.

Lemma path_append_length m c :
  length (path (path_append c m)) = S (length (path m)).
Proof.
  unfold path_append, with_path, path; simpl. rewrite length_app; simpl. lia.
Qed.

Lemma path_exploration_data_append m row :
  path (exploration_data_append row m) = path m.
Proof. reflexivity. Qed.

Lemma frame_path_length m m' :
  maze_frame m m' → (length (path m) ≤ length (path m'))%nat.
Proof. intros (_ & _ & _ & _ & Hp & _). by apply prefix_length. Qed.

(** Every iteration of the loop of [explore] appends to the trace before
    anything can raise. *)
Lemma explore_body_path_grows num m r res m' r' :
  explore_body num (m, r) = (res, (m', r')) →
  (length (path m) < length (path m'))%nat.
Proof.
  rewrite explore_body_eq; simpl.
  destruct (move _) as [[action | e] [m1 r1]] eqn:Hmove; simpl;
    apply frame_move, frame_path_length in Hmove;
    rewrite path_append_length in Hmove.
  - destruct (prev_runner m1) as [prev |]; simpl; intros [= <- <- <-];
      rewrite ?path_exploration_data_append; lia.
  - intros [= <- <- <-]. lia.
Qed.

Lemma explore_loop_raise_path_grows fuel goal num actions m r e m' r' :
  explore_loop fuel goal num actions (m, r) = Some (Raise e, (m', r')) →
  (length (path m) < length (path m'))%nat.
Proof.
  revert num actions m r.
  induction fuel as [| fuel IH]; intros num actions m r; simpl;
    case_decide; try discriminate.
  destruct (explore_body num (m, r)) as [[action | e1] [m1 r1]] eqn:Hbody;
    apply explore_body_path_grows in Hbody.
  - intros Hloop%IH. lia.
  - intros [= <- <- <-]. lia.
Qed.

(** A call of [explore] that comes back, normally or not, has appended
    at least one coordinate to the trace it found. *)
Lemma explore_appends fuel goal m r res m' r' :
  explore fuel goal (m, r) = Some (res, (m', r')) →
  ∃ t, path m' = path m ++ t ∧ t ≠ [].
Proof.
  intros Hexp.
  destruct (frame_explore _ _ _ _ _ _ _ Hexp) as (_ & _ & _ & _ & [t Ht] & _).
  exists t. split; [done |]. intros ->.
  assert (length (path m) < length (path m'))%nat as Hlt;
    [| rewrite Ht, app_nil_r in Hlt; lia].
  rewrite explore_eq in Hexp.
  destruct (explore_loop fuel goal 0 "" (m, r))
    as [[[[num actions] | e] [m1 r1]] |] eqn:Hloop; try discriminate;
    simpl in Hexp; injection Hexp as <- <- <-.
  - apply frame_explore_loop, frame_path_length in Hloop.
    rewrite path_append_length. lia.
  - by eapply explore_loop_raise_path_grows.
Qed.

Lemma explore_body_path num m r action m' r' :
  explore_body num (m, r) = (Ok action, (m', r')) →
  path m' = path m ++ [(get_x r, get_y r)].
Proof.
  rewrite explore_body_eq; simpl.
  pose proof (move_maze (path_append (get_x r, get_y r) m, r)) as Hm.
  destruct (move _) as [[action1 | e] [m1 r1]]; simpl in *; [| done].
  destruct (prev_runner m1) as [prev |]; simpl; [| done].
  intros [= <- <- <-]. by rewrite path_exploration_data_append, Hm.
Qed.

(** The coordinates appended by the loop of [explore] when it ends
    normally: the position at its start comes first, none is the goal,
    and the runner is left on the goal. *)
Lemma explore_loop_trace fuel goal num actions m r out m' r' :
  explore_loop fuel goal num actions (m, r) = Some (Ok out, (m', r')) →
  ∃ t, (path m' = path m ++ t) ∧ (goal ∉ t) ∧ ((get_x r', get_y r') = goal) ∧
       (head (t ++ [goal]) = Some (get_x r, get_y r)).
Proof.
  revert num actions m r.
  induction fuel as [| fuel IH]; intros num actions m r; simpl;
    case_decide as Hgoal; try discriminate.
  - intros [= <- <- <-]. exists [].
    rewrite app_nil_r, Hgoal. repeat split; try done. apply not_elem_of_nil.
  - destruct (explore_body num (m, r)) as [[action | e] [m1 r1]] eqn:Hbody;
      [| discriminate].
    apply explore_body_path in Hbody.
    intros (t & Ht & Hnot & Hat & _)%IH.
    exists ((get_x r, get_y r) :: t). rewrite Ht, Hbody, <- app_assoc.
    repeat split; try done. apply not_elem_of_cons. by split.
  - intros [= <- <- <-]. exists [].
    rewrite app_nil_r, Hgoal. repeat split; try done. apply not_elem_of_nil.
Qed.

(** A first run on a maze whose trace is empty: if [shortest_path]
    returns, its path has no repeated coordinate, starts at the start
    and ends at the goal, which the trace meets once, at its end. *)
Lemma shortest_path_fresh_endpoints fuel start goal m p m' :
  path m = [] →
  shortest_path fuel (Some start) (Some goal) m = Some (Ok p, m') →
  NoDup p ∧ head p = Some start ∧ last p = Some goal.
Proof.
  intros Hp. rewrite shortest_path_eq. cbv zeta. rewrite explore_eq; simpl.
  destruct (explore_loop _ _ _ _ _) as [[[[num actions] | e] [m1 r1]] |]
    eqn:Hloop; try discriminate.
  apply explore_loop_trace in Hloop as (t & Ht & Hnot & Hat & Hhead).
  simpl. intros [= <- <-].
  change (path (path_append (get_x r1, get_y r1) m1))
    with (path m1 ++ [(get_x r1, get_y r1)]).
  rewrite Ht, Hp, Hat, app_nil_l.
  rewrite loop_removal_simplify. split; [apply simplify_NoDup |]. split.
  - rewrite simplify_head, Hhead. by destruct start.
  - apply simplify_last. by left.
Qed.

(** A call of [shortest_path] that returns has simplified the whole
    buffer, which starts with what was in it before the call. *)
Lemma shortest_path_trace fuel starting goal m p m' :
  shortest_path fuel starting goal m = Some (Ok p, m') →
  ∃ t, path m' = path m ++ t ∧ p = loop_removal (path m ++ t).
Proof.
  intros Hsp. pose proof (frame_shortest_path _ _ _ _ _ _ Hsp) as Hf.
  destruct Hf as (_ & _ & _ & _ & [t Ht] & _). exists t. split; [done |].
  rewrite shortest_path_eq in Hsp; simpl in Hsp.
  destruct (explore _ _ _) as [[[actions | e] [m1 r1]] |];
    try discriminate.
  simpl in Hsp. injection Hsp as <- <-. by rewrite Ht.
Qed.

End run_facts.

(** C9: on a maze just constructed, with the runner starting on the goal,
    [explore] returns at once, whatever the fuel, the empty string of
    actions, having appended the start alone to the trace and no row to
    the exploration data; [shortest_path] with start equal to goal
    returns the path [start], and so does the call with both arguments
    left out on the 1 by 1 maze. *)
Theorem start_equals_goal (w h : Z) (start : coord) (o : string) (fuel : nat) :
  let m := init w h in
  let m' := path_append start m in
  explore fuel start (m, create_runner start.1 start.2 o)
    = Some (Ok "", (m', create_runner start.1 start.2 o)) ∧
  path m' = [start] ∧
  exploration_data m' = [("Step", "x-coordinate", "y-coordinate", "Actions")] ∧
  shortest_path fuel (Some start) (Some start) m = Some (Ok [start], m') ∧
  shortest_path fuel None None (init 1 1)
    = Some (Ok [(0, 0)], path_append (0, 0) (init 1 1)).
Proof.
  intros m m'. split; [| split; [| split; [| split]]].
  - apply explore_at_goal. by destruct start.
  - reflexivity.
  - reflexivity.
  - by apply shortest_path_at_goal.
  - by apply (shortest_path_at_goal fuel (0, 0) (init 1 1)).
Qed.

(** C10, as the code has it: a maze just constructed has an empty trace
    and an exploration data buffer holding only its header row; no call
    of a method of [Maze] ([add_horizontal_wall], [add_vertical_wall],
    [go_straight], [move], [explore], [shortest_path]) removes anything
    from either buffer, the old contents staying as a prefix of the new;
    every operation of the class either does so or is an assignment
    through the [path] or the [exploration_data] setter, which puts the
    assigned list in the place of the buffer and leaves the other buffer
    alone; with rendering off, a call of [explore] that comes back has
    appended at least one coordinate to the trace it found; a call of
    [shortest_path] that returns has appended the new run to the old
    trace and returns the simplification of the whole. *)
Theorem buffers_cleared_only_by_setters (w h : Z) (m m' : Maze) :
  (path (init w h) = [] ∧
   exploration_data (init w h)
   = [("Step", "x-coordinate", "y-coordinate", "Actions")]) ∧
  (rtc method_step m m' →
   path m `prefix_of` path m' ∧
   exploration_data m `prefix_of` exploration_data m') ∧
  (maze_step m m' →
   (path m `prefix_of` path m' ∧
    exploration_data m `prefix_of` exploration_data m')
   ∨ (∃ p, m' = path_setter p m)
   ∨ (∃ d, m' = exploration_data_setter d m)) ∧
  (∀ p d,
     path (path_setter p m) = p ∧
     exploration_data (path_setter p m) = exploration_data m ∧
     exploration_data (exploration_data_setter d m) = d ∧
     path (exploration_data_setter d m) = path m) ∧
  (∀ fuel goal r res r',
     render_settings m = (false, false) →
     explore fuel goal (m, r) = Some (res, (m', r')) →
     ∃ t, path m' = path m ++ t ∧ t ≠ []) ∧
  (∀ fuel starting goal p,
     shortest_path fuel starting goal m = Some (Ok p, m') →
     ∃ t, path m' = path m ++ t ∧ p = loop_removal (path m ++ t)).
Proof.
  split; [done |]. split_and!.
  - intros Hsteps. apply method_steps_frame in Hsteps. apply Hsteps.
  - intros [Hm | Hset]%maze_step_cases; [left | by right].
    apply method_step_frame in Hm. apply Hm.
  - done.
  - intros fuel goal r res r' _. apply explore_appends.
  - intros fuel starting goal p. apply shortest_path_trace.
Qed.

Lemma buffers_cleared_only_by_setters_witness :
  path (after_default_run 5 (init 1 2)) = [(0, 0); (0, 1)] ∧
  (∃ t, path (after_default_run 5 (after_default_run 5 (init 1 2)))
        = path (after_default_run 5 (init 1 2)) ++ t ∧
        [(0, 0)] = loop_removal (path (after_default_run 5 (init 1 2)) ++ t)) ∧
  (∃ t, path (path_append (0, 0) (init 1 1)) = path (init 1 1) ++ t ∧ t ≠ []) ∧
  path (path_setter [] (after_default_run 5 (init 1 2))) = [].
Proof.
  split; [vm_compute; reflexivity |]. split; [| split].
  - apply (proj2 (proj2 (proj2 (proj2 (proj2
             (buffers_cleared_only_by_setters 1 2
                (after_default_run 5 (init 1 2))
                (after_default_run 5 (after_default_run 5 (init 1 2))))))))
             5%nat None None).
    vm_compute. reflexivity.
  - apply (proj1 (proj2 (proj2 (proj2 (proj2
             (buffers_cleared_only_by_setters 1 1 (init 1 1)
                (path_append (0, 0) (init 1 1)))))))
             0%nat (0, 0) (create_runner 0 0 "N") (Ok "")
             (create_runner 0 0 "N")).
    + reflexivity.
    + vm_compute. reflexivity.
  - reflexivity.
Defined.

(** C10 read literally fails: after a run on the 1 by 2 maze the trace
    holds two cells, and the assignment of the empty list through the
    [path] setter, an operation of the class, leaves it empty. *)
Lemma buffers_never_cleared_as_stated_fails :
  ¬ buffers_never_cleared_as_stated (after_default_run 5 (init 1 2)).
Proof.
  intros H.
  destruct (H (path_setter [] (after_default_run 5 (init 1 2)))) as [Hp _].
  - apply rtc_once, step_path_setter.
  - assert (Hpath : path (after_default_run 5 (init 1 2)) = [(0, 0); (0, 1)])
      by (vm_compute; reflexivity).
    rewrite Hpath in Hp. by apply prefix_nil_not in Hp.
Qed.

(** ** Sample runs *)

Example orientation_options_N :
  orientation_options (create_runner 0 0 "N") = Ok ("W", "N", "E").
Proof. reflexivity. Qed.

Example orientation_options_unknown :
  orientation_options (create_runner 0 0 "X")
  = Raise (ValueError "tuple.index(x): x not in tuple").
Proof. reflexivity. Qed.

Example corridor_run :
  option_map fst (shortest_path 10 None None (init 1 4))
  = Some (Ok [(0, 0); (0, 1); (0, 2); (0, 3)]).
Proof. vm_compute. reflexivity. Qed.

Example square_run_data :
  option_map (λ out, exploration_data out.2)
    (shortest_path 10 None (Some (1, 0)) (init 2 2))
  = Some [("Step", "x-coordinate", "y-coordinate", "Actions");
          ("1", "0", "0", "F"); ("2", "0", "1", "RF"); ("3", "1", "1", "RF")].
Proof. vm_compute. reflexivity. Qed.

Example dead_end_run :
  option_map fst
    (shortest_path 10 (Some (1, 0)) (Some (1, 1))
       (add_horizontal_wall 1 1 (init 2 2)))
  = Some (Ok [(1, 0); (0, 0); (0, 1); (1, 1)]).
Proof. vm_compute. reflexivity. Qed.

Example sealed_cell_run :
  option_map fst (shortest_path 10 None (Some (1, 0)) (init 1 1))
  = Some (Raise (ValueError "")).
Proof. vm_compute. reflexivity. Qed.

Example open_square_never_reaches_outside :
  shortest_path 40 None (Some (5, 5)) (init 2 2) = None.
Proof. vm_compute. reflexivity. Qed.

(** * Further properties of the code *)

(** ** runner.py: turning and advancing *)

Section runner_more.

Implicit Types (r : Runner) (o : string).

Lemma forward_invalid r : orientation r ∉ orientations → forward r = (Ok tt, r).
Proof.
  rewrite orientation_cases. intros Hno.
  unfold forward, mbind, M_bind, bind, get, get_orientation; simpl.
  repeat (case_decide; [exfalso; tauto |]). reflexivity.
Qed.

Lemma turn_other_direction r direction :
  orientation r ∈ orientations →
  direction ≠ "Left" → direction ≠ "Right" → turn direction r = (Ok tt, r).
Proof.
  intros Hv Hl Hr. unfold turn, mbind, M_bind, bind, get, lift_result.
  rewrite (orientation_options_valid r Hv).
  do 2 (case_decide; [done |]). reflexivity.
Qed.

Lemma opposite_cases o :
  o ∈ orientations →
  (o = "N" ∧ opposite o = "S") ∨ (o = "E" ∧ opposite o = "W") ∨
  (o = "S" ∧ opposite o = "N") ∨ (o = "W" ∧ opposite o = "E").
Proof.
  intros [-> | [-> | [-> | ->]]]%orientation_cases; vm_compute; tauto.
Qed.

Lemma opposite_valid o : o ∈ orientations → opposite o ∈ orientations.
Proof. intros Hv. by apply left_of_valid, left_of_valid. Qed.

End runner_more.

(** X1 (runner.py, [turn] and [orientation_options]): on a runner whose
    orientation is one of N, E, S, W, four left turns, and four right
    turns, give the runner back; two left turns and two right turns give
    the same runner, which faces the opposite way (N/S and E/W swapped)
    on the same cell; and [turn] with a direction that is neither "Left"
    nor "Right" returns normally without changing the runner. *)
Theorem turn_algebra (r : Runner) :
  orientation r ∈ orientations →
  (turn "Left";; turn "Left";; turn "Left";; turn "Left") r = (Ok tt, r) ∧
  (turn "Right";; turn "Right";; turn "Right";; turn "Right") r = (Ok tt, r) ∧
  (turn "Left";; turn "Left") r = (turn "Right";; turn "Right") r ∧
  (turn "Left";; turn "Left") r
    = (Ok tt, mkRunner (x r) (y r) (opposite (orientation r))) ∧
  ((orientation r = "N" → opposite (orientation r) = "S") ∧
   (orientation r = "E" → opposite (orientation r) = "W") ∧
   (orientation r = "S" → opposite (orientation r) = "N") ∧
   (orientation r = "W" → opposite (orientation r) = "E")) ∧
  (∀ direction, direction ≠ "Left" → direction ≠ "Right" →
                turn direction r = (Ok tt, r)).
Proof.
  intros Hv. split_and!;
    try (intros; by apply turn_other_direction);
    try (intros ->; reflexivity);
    destruct r as [x0 y0 o]; simpl in *;
    apply orientation_cases in Hv as [-> | [-> | [-> | ->]]]; reflexivity.
Qed.

Lemma turn_algebra_witness :
  (turn "Left";; turn "Left") (create_runner 4 7 "E")
  = (Ok tt, mkRunner 4 7 "W") ∧
  turn "Up" (create_runner 4 7 "E") = (Ok tt, create_runner 4 7 "E").
Proof.
  assert (Hv : orientation (create_runner 4 7 "E") ∈ orientations)
    by (apply orientation_cases; simpl; tauto).
  destruct (turn_algebra (create_runner 4 7 "E") Hv)
    as (_ & _ & _ & Hopp & _ & Hother).
  split; [exact Hopp | by apply Hother].
Defined.

(** X2 (runner.py and maze.py, orientation outside N, E, S, W): such a
    runner makes [orientation_options], hence [turn] in any direction,
    [sense_walls], [go_straight] and [move], raise the [ValueError] of
    [tuple.index]; the runner is left as it was, [move] has by then
    recorded the runner's cell in [prev_runner]; [forward] raises
    nothing and moves nothing. *)
Theorem invalid_orientation (m : Maze) (r : Runner) (direction : string) :
  orientation r ∉ orientations →
  let e := ValueError "tuple.index(x): x not in tuple" in
  orientation_options r = Raise e ∧
  turn direction r = (Raise e, r) ∧
  forward r = (Ok tt, r) ∧
  sense_walls m r = Raise e ∧
  go_straight (m, r) = (Raise e, (m, r)) ∧
  move (m, r) = (Raise e, (with_prev_runner (get_x r, get_y r) m, r)).
Proof.
  intros Hv e. split_and!.
  - by apply orientation_options_invalid.
  - by apply turn_invalid.
  - by apply forward_invalid.
  - by apply sense_walls_invalid.
  - by apply go_straight_invalid.
  - by apply move_invalid.
Qed.

Lemma invalid_orientation_witness :
  turn "Left" (create_runner 0 0 "north")
  = (Raise (ValueError "tuple.index(x): x not in tuple"),
     create_runner 0 0 "north") ∧
  forward (create_runner 0 0 "north") = (Ok tt, create_runner 0 0 "north").
Proof.
  assert (Hv : orientation (create_runner 0 0 "north") ∉ orientations).
  { rewrite orientation_cases; simpl. intros [H | [H | [H | H]]]; discriminate. }
  destruct (invalid_orientation (init 1 1) (create_runner 0 0 "north") "Left" Hv)
    as (_ & Ht & Hf & _).
  split; [exact Ht | exact Hf].
Defined.

(** X3 (runner.py, [forward] and [turn]): advancing, turning around,
    advancing again and turning around once more brings a runner with a
    valid orientation back to the cell and the heading it started with. *)
Theorem forward_there_and_back (r : Runner) :
  orientation r ∈ orientations →
  (forward;; turn "Left";; turn "Left";;
   forward;; turn "Left";; turn "Left") r = (Ok tt, r).
Proof.
  intros Hv. destruct r as [x0 y0 o]; simpl in *.
  apply orientation_cases in Hv as [-> | [-> | [-> | ->]]];
    cbv -[Z.add Z.sub]; do 2 f_equal; lia.
Qed.

Lemma forward_there_and_back_witness :
  (forward;; turn "Left";; turn "Left";;
   forward;; turn "Left";; turn "Left") (create_runner 3 0 "S")
  = (Ok tt, create_runner 3 0 "S").
Proof.
  apply (forward_there_and_back (create_runner 3 0 "S")).
  apply orientation_cases; simpl; tauto.
Defined.

(** ** maze.py: the wall sets *)

Section walls_more.

Implicit Types (m : Maze) (c : coord) (o : string).

(** A wall between two neighbouring cells is the same wall seen from
    either side. *)
Lemma wall_toward_opposite m c o :
  o ∈ orientations →
  wall_toward m (advance o c) (opposite o) = wall_toward m c o.
Proof.
  destruct c as [cx cy].
  intros [-> | [-> | [-> | ->]]]%orientation_cases;
    unfold wall_toward; rewrite !get_walls_flags;
    cbv [opposite left_of rotate advance fst snd]; simpl;
    try reflexivity.
  - by replace (cy - 1 + 1) with cy by lia.
  - by replace (cx - 1 + 1) with cx by lia.
Qed.

Lemma get_walls_same m m' x0 y0 :
  h_walls m' = h_walls m → v_walls m' = v_walls m →
  get_walls m' x0 y0 = get_walls m x0 y0.
Proof. intros Hh Hv. by rewrite !get_walls_flags, Hh, Hv. Qed.

End walls_more.

(** X4 (maze.py, [get_walls]): in every maze the two cells on either side
    of a grid segment agree on it: the north flag of (x, y) is the south
    flag of (x, y+1), the east flag of (x, y) is the west flag of
    (x+1, y); so the wall a runner sees towards a neighbouring cell is
    the wall seen from that cell when looking back. *)
Theorem walls_agree_across (m : Maze) (c : coord) (o : string) :
  o ∈ orientations →
  (get_walls m c.1 c.2).1.1.1 = (get_walls m c.1 (c.2 + 1)).1.2 ∧
  (get_walls m c.1 c.2).1.1.2 = (get_walls m (c.1 + 1) c.2).2 ∧
  wall_toward m (advance o c) (opposite o) = wall_toward m c o.
Proof.
  intros Hv. split_and!; [reflexivity | reflexivity |].
  by apply wall_toward_opposite.
Qed.

Lemma walls_agree_across_witness :
  wall_toward (add_vertical_wall 0 1 (init 2 1)) (1, 0) "W"
  = wall_toward (add_vertical_wall 0 1 (init 2 1)) (0, 0) "E".
Proof.
  assert (Hv : "E" ∈ orientations) by (apply orientation_cases; tauto).
  exact (proj2 (proj2 (walls_agree_across
                         (add_vertical_wall 0 1 (init 2 1)) (0, 0) "E" Hv))).
Defined.

Section adders_more.

Implicit Types (m : Maze) (c : coord).

Lemma add_horizontal_wall_in_range m x0 l :
  0 ≤ x0 < width m → 1 ≤ l < height m →
  add_horizontal_wall x0 l m = with_h_walls (set_add (x0, l) (h_walls m)) m.
Proof.
  unfold add_horizontal_wall, width, height. intros Hx Hl.
  case_decide; [done | lia].
Qed.

Lemma add_vertical_wall_in_range m y0 l :
  0 ≤ y0 < height m → 1 ≤ l < width m →
  add_vertical_wall y0 l m = with_v_walls (set_add (l, y0) (v_walls m)) m.
Proof.
  unfold add_vertical_wall, width, height. intros Hy Hl.
  case_decide; [done | lia].
Qed.

Lemma elem_of_set_add c c' (s : gset coord) :
  c ∈ set_add c' s ↔ c = c' ∨ c ∈ s.
Proof. unfold set_add. by rewrite elem_of_union, elem_of_singleton. Qed.

End adders_more.

(** X5 (maze.py, [add_horizontal_wall]): with x in [0, width) and the line
    in [1, height), the call adds the wall (x, line) and nothing else to
    the horizontal walls, leaves the vertical walls, the size and the two
    buffers as they were; afterwards the cell below the line sees it as
    its north wall and the cell above as its south wall; adding the same
    wall again changes nothing. *)
Theorem add_horizontal_wall_adds (m : Maze) (x0 l : Z) :
  0 ≤ x0 < width m → 1 ≤ l < height m →
  let m' := add_horizontal_wall x0 l m in
  (∀ c, c ∈ h_walls m' ↔ c = (x0, l) ∨ c ∈ h_walls m) ∧
  v_walls m' = v_walls m ∧
  (width m' = width m ∧ height m' = height m) ∧
  (path m' = path m ∧ exploration_data m' = exploration_data m) ∧
  (get_walls m' x0 (l - 1)).1.1.1 = true ∧
  (get_walls m' x0 l).1.2 = true ∧
  add_horizontal_wall x0 l m' = m'.
Proof.
  intros Hx Hl m'. subst m'. rewrite add_horizontal_wall_in_range by done.
  split_and!; try reflexivity.
  - intros c. apply elem_of_set_add.
  - rewrite get_walls_flags; simpl. apply bool_decide_eq_true.
    replace (l - 1 + 1) with l by lia. apply elem_of_set_add. by left.
  - rewrite get_walls_flags; simpl. apply bool_decide_eq_true.
    apply elem_of_set_add. by left.
  - rewrite add_horizontal_wall_in_range by done.
    unfold with_h_walls, h_walls, set_add; simpl. f_equal.
    apply set_eq. intros c. rewrite !elem_of_union, !elem_of_singleton. tauto.
Qed.

Lemma add_horizontal_wall_adds_witness :
  (get_walls (add_horizontal_wall 1 2 (init 3 3)) 1 1).1.1.1 = true ∧
  (get_walls (add_horizontal_wall 1 2 (init 3 3)) 1 2).1.2 = true.
Proof.
  destruct (add_horizontal_wall_adds (init 3 3) 1 2)
    as (_ & _ & _ & _ & Hn & Hs & _); [simpl; lia | simpl; lia |].
  split; [exact Hn | exact Hs].
Defined.

(** X6 (maze.py, [add_vertical_wall]): with y in [0, height) and the line
    in [1, width), the call, whose arguments are (y, line), adds the wall
    stored as (line, y) and nothing else to the vertical walls, leaves the
    horizontal walls, the size and the two buffers as they were;
    afterwards the cell left of the line sees it as its east wall and the
    cell right of it as its west wall; adding the same wall again changes
    nothing. *)
Theorem add_vertical_wall_adds (m : Maze) (y0 l : Z) :
  0 ≤ y0 < height m → 1 ≤ l < width m →
  let m' := add_vertical_wall y0 l m in
  (∀ c, c ∈ v_walls m' ↔ c = (l, y0) ∨ c ∈ v_walls m) ∧
  h_walls m' = h_walls m ∧
  (width m' = width m ∧ height m' = height m) ∧
  (path m' = path m ∧ exploration_data m' = exploration_data m) ∧
  (get_walls m' (l - 1) y0).1.1.2 = true ∧
  (get_walls m' l y0).2 = true ∧
  add_vertical_wall y0 l m' = m'.
Proof.
  intros Hy Hl m'. subst m'. rewrite add_vertical_wall_in_range by done.
  split_and!; try reflexivity.
  - intros c. apply elem_of_set_add.
  - rewrite get_walls_flags; simpl. apply bool_decide_eq_true.
    replace (l - 1 + 1) with l by lia. apply elem_of_set_add. by left.
  - rewrite get_walls_flags; simpl. apply bool_decide_eq_true.
    apply elem_of_set_add. by left.
  - rewrite add_vertical_wall_in_range by done.
    unfold with_v_walls, v_walls, set_add; simpl. f_equal.
    apply set_eq. intros c. rewrite !elem_of_union, !elem_of_singleton. tauto.
Qed.

Lemma add_vertical_wall_adds_witness :
  (get_walls (add_vertical_wall 0 1 (init 2 1)) 0 0).1.1.2 = true ∧
  (get_walls (add_vertical_wall 0 1 (init 2 1)) 1 0).2 = true.
Proof.
  destruct (add_vertical_wall_adds (init 2 1) 0 1)
    as (_ & _ & _ & _ & He & Hw & _); [simpl; lia | simpl; lia |].
  split; [exact He | exact Hw].
Defined.

Lemma init_get_walls w h c :
  in_bounds w h c →
  get_walls (init w h) c.1 c.2
  = (bool_decide (c.2 = h - 1), bool_decide (c.1 = w - 1),
     bool_decide (c.2 = 0), bool_decide (c.1 = 0)).
Proof.
  destruct c as [cx cy]. unfold in_bounds; simpl. intros [Hx Hy].
  rewrite get_walls_flags. repeat f_equal; apply bool_decide_ext;
    rewrite ?init_h_walls, ?init_v_walls.
  - split.
    + intros (i & Hi & [[= -> ?] | [= -> ?]]); lia.
    + intros ->. exists cx. split; [lia |]. left. f_equal. lia.
  - split.
    + intros (j & Hj & [[= ? ->] | [= ? ->]]); lia.
    + intros ->. exists cy. split; [lia |]. left. f_equal. lia.
  - split.
    + intros (i & Hi & [[= -> ?] | [= -> ?]]); lia.
    + intros ->. exists cx. split; [lia |]. by right.
  - split.
    + intros (j & Hj & [[= ? ->] | [= ? ->]]); lia.
    + intros ->. exists cy. split; [lia |]. by right.
Qed.

(** X7 (maze.py, [__init__] and [get_walls]): a maze just constructed has
    the boundary walls and no other: its horizontal walls are exactly the
    (i, 0) and (i, height) with i in [0, width), its vertical walls
    exactly the (0, j) and (width, j) with j in [0, height); so a cell of
    the grid has a north wall iff it is in the top row, an east wall iff
    in the last column, a south wall iff in the bottom row and a west
    wall iff in the first column. *)
Theorem fresh_maze_walls (w h : Z) (c : coord) :
  (c ∈ h_walls (init w h) ↔ ∃ i, 0 ≤ i < w ∧ (c = (i, h) ∨ c = (i, 0))) ∧
  (c ∈ v_walls (init w h) ↔ ∃ j, 0 ≤ j < h ∧ (c = (w, j) ∨ c = (0, j))) ∧
  (in_bounds w h c →
   get_walls (init w h) c.1 c.2
   = (bool_decide (c.2 = h - 1), bool_decide (c.1 = w - 1),
      bool_decide (c.2 = 0), bool_decide (c.1 = 0))).
Proof.
  split_and!; [apply init_h_walls | apply init_v_walls | apply init_get_walls].
Qed.

Lemma fresh_maze_walls_witness :
  get_walls (init 3 2) 2 0 = (false, true, true, false).
Proof.
  assert (Hb : in_bounds 3 2 (2, 0)) by (unfold in_bounds; simpl; lia).
  exact (proj2 (proj2 (fresh_maze_walls 3 2 (2, 0))) Hb).
Defined.

(** ** maze.py: single moves, seen from outside *)

Section move_more.

Implicit Types (m : Maze) (r : Runner) (c : coord) (o : string).

(** What a returning [move] has done. *)
Lemma move_Ok_inv m r a m' r' :
  move (m, r) = (Ok a, (m', r')) →
  orientation r ∈ orientations ∧
  m' = with_prev_runner (get_x r, get_y r) m ∧
  orientation r' ∈ orientations ∧
  a ∈ action_codes ∧
  position r' = advance (orientation r') (position r) ∧
  wall_toward m (position r) (orientation r') = false.
Proof.
  intros Hmove.
  destruct (decide (orientation r ∈ orientations)) as [Hv | Hv];
    [| rewrite (move_invalid m r Hv) in Hmove; discriminate].
  split; [done |].
  pose proof (move_action_codes _ _ _ _ Hmove) as Ha.
  pose proof (move_valid m r Hv) as Hm. simpl in Hm.
  pose proof (rotate_left_of _ (get_walls m (x r) (y r)) Hv) as Hl.
  pose proof (rotate_right_of _ (get_walls m (x r) (y r)) Hv) as Hr.
  pose proof (rotate_left_left _ (get_walls m (x r) (y r)) Hv) as Hb.
  pose proof (left_of_valid _ Hv) as Hvl.
  pose proof (left_of_valid _ Hvl) as Hvll.
  pose proof (right_of_valid _ Hv) as Hvr.
  unfold wall_toward, position, get_x, get_y in *; simpl.
  destruct (rotate (orientation r) _) as [[[l f] rt] b] eqn:Hrot.
  simpl in *. rewrite Hm in Hmove.
  destruct l; simpl in Hmove;
    [| injection Hmove as <- <- <-; by rewrite advanced_position].
  destruct f; simpl in Hmove;
    [| injection Hmove as <- <- <-; rewrite advanced_position;
       unfold advanced; simpl; by rewrite Hrot].
  destruct rt; simpl in Hmove;
    [| injection Hmove as <- <- <-; by rewrite advanced_position].
  destruct b; simpl in Hmove; [discriminate |].
  injection Hmove as <- <- <-. by rewrite advanced_position.
Qed.

(** What a raising [move] has found, the orientation being valid. *)
Lemma move_Raise_inv m r e w' :
  orientation r ∈ orientations →
  move (m, r) = (Raise e, w') →
  e = ValueError "" ∧
  get_walls m (x r) (y r) = (true, true, true, true) ∧
  w' = (with_prev_runner (get_x r, get_y r) m,
        set_orientation (opposite (orientation r)) r).
Proof.
  intros Hv Hmove.
  pose proof (move_valid m r Hv) as Hm. simpl in Hm.
  pose proof (rotate_all_walls _ (get_walls m (x r) (y r)) Hv) as Hall.
  unfold get_x, get_y in *.
  destruct (rotate (orientation r) _) as [[[l f] rt] b] eqn:Hrot.
  rewrite Hm in Hmove.
  destruct l, f, rt, b; simpl in Hmove; try discriminate.
  injection Hmove as <- <-. split; [done |]. split; [by apply Hall | done].
Qed.

Lemma move_sealed m r :
  orientation r ∈ orientations →
  get_walls m (x r) (y r) = (true, true, true, true) →
  move (m, r)
  = (Raise (ValueError ""),
     (with_prev_runner (get_x r, get_y r) m,
      set_orientation (opposite (orientation r)) r)).
Proof.
  intros Hv Hw.
  pose proof (move_valid m r Hv) as Hm. simpl in Hm.
  pose proof (rotate_all_walls _ (get_walls m (x r) (y r)) Hv) as Hall.
  unfold get_x, get_y in *.
  apply Hall in Hw. rewrite Hw in Hm. exact Hm.
Qed.

(** A cell with an open side is not sealed. *)
Lemma open_side_not_sealed m c o :
  o ∈ orientations → wall_toward m c o = false → not_sealed m c.
Proof.
  intros Hv Hopen Hsealed. unfold wall_toward in Hopen.
  apply (rotate_all_walls o _ Hv) in Hsealed. by rewrite Hsealed in Hopen.
Qed.

(** The cell a move has entered is open towards the cell it left. *)
Lemma move_Ok_not_sealed m r a m' r' :
  move (m, r) = (Ok a, (m', r')) → not_sealed m (position r').
Proof.
  intros (_ & _ & Hv' & _ & Hpos & Hopen)%move_Ok_inv.
  apply (open_side_not_sealed m _ (opposite (orientation r')));
    [by apply opposite_valid |].
  by rewrite Hpos, wall_toward_opposite.
Qed.

(** Inside the boundary walls an open step stays in the grid. *)
Lemma open_step_in_bounds w h m c c' :
  boundary_walls w h m → in_bounds w h c → open_step m c c' →
  in_bounds w h c'.
Proof.
  destruct c as [cx cy]. unfold in_bounds; simpl.
  intros [Hbh Hbv] [Hx Hy] (o & Hv & -> & Hopen).
  destruct (Hbh cx Hx) as [Hbottom Htop].
  destruct (Hbv cy Hy) as [Hleft Hright].
  unfold wall_toward in Hopen. rewrite get_walls_flags in Hopen.
  apply orientation_cases in Hv as [-> | [-> | [-> | ->]]];
    cbv [rotate advance fst snd] in *; simpl in *;
    apply bool_decide_eq_false in Hopen.
  - destruct (decide (cy + 1 = h)) as [Heq | ?]; [| lia].
    rewrite Heq in Hopen. done.
  - destruct (decide (cx + 1 = w)) as [Heq | ?]; [| lia].
    rewrite Heq in Hopen. done.
  - destruct (decide (cy = 0)) as [Heq | ?]; [| lia].
    rewrite Heq in Hopen. done.
  - destruct (decide (cx = 0)) as [Heq | ?]; [| lia].
    rewrite Heq in Hopen. done.
Qed.

Lemma move_Ok_open_step m r a m' r' :
  move (m, r) = (Ok a, (m', r')) → open_step m (position r) (position r').
Proof.
  intros (_ & _ & Hv' & _ & Hpos & Hopen)%move_Ok_inv.
  by exists (orientation r').
Qed.

End move_more.

(** X8 (maze.py, [move]): in a maze that has its boundary walls, a runner
    standing on a cell of the grid is, whenever [move] returns, again on
    a cell of the grid, next to the one it left and across a side without
    wall: the runner never leaves the maze. *)
Theorem move_stays_in_grid (w h : Z) (m : Maze) (r : Runner) (a : string)
    (m' : Maze) (r' : Runner) :
  boundary_walls w h m →
  in_bounds w h (position r) →
  move (m, r) = (Ok a, (m', r')) →
  in_bounds w h (position r') ∧ open_step m (position r) (position r').
Proof.
  intros Hb Hin Hmove. pose proof (move_Ok_open_step _ _ _ _ _ Hmove) as Hstep.
  split; [by eapply open_step_in_bounds | done].
Qed.

Lemma move_stays_in_grid_witness :
  in_bounds 2 2 (position (create_runner 1 1 "E")).
Proof.
  apply (move_stays_in_grid 2 2 (init 2 2) (create_runner 0 1 "N") "RF"
           (with_prev_runner (0, 1) (init 2 2)) (create_runner 1 1 "E")).
  - apply boundary_walls_init.
  - unfold in_bounds; simpl; lia.
  - vm_compute. reflexivity.
Defined.

(** ** maze.py: the exploration loop *)

Section explore_more.

Implicit Types (m : Maze) (r : Runner) (c : coord) (t : list coord).

Lemma is_walk_cons_cons m c c' t :
  is_walk m (c :: c' :: t) ↔ open_step m c c' ∧ is_walk m (c' :: t).
Proof. reflexivity. Qed.

Lemma is_walk_same_walls m m' t :
  h_walls m' = h_walls m → v_walls m' = v_walls m →
  is_walk m' t → is_walk m t.
Proof.
  intros Hh Hv. induction t as [| c t IH]; [done |].
  destruct t as [| c' t]; [done |]. rewrite !is_walk_cons_cons.
  intros [(o & Ho & Hc & Hopen) Hrest]. split; [| by apply IH].
  exists o. split; [done |]. split; [done |].
  unfold wall_toward in *. by rewrite <- (get_walls_same m m').
Qed.

Lemma is_walk_in_bounds w h m t c0 :
  boundary_walls w h m → head t = Some c0 → in_bounds w h c0 →
  is_walk m t → Forall (in_bounds w h) t.
Proof.
  intros Hb. revert c0. induction t as [| c t IH]; intros c0; [constructor |].
  destruct t as [| c' t].
  - intros [= ->] Hin _. constructor; [done | constructor].
  - rewrite is_walk_cons_cons. intros [= ->] Hin [Hstep Hrest].
    constructor; [done |].
    apply (IH c'); [done | by eapply open_step_in_bounds | done].
Qed.

(** One iteration of the loop of [explore] that ends normally. *)
Lemma explore_body_Ok_inv num m r a m1 r1 :
  explore_body num (m, r) = (Ok a, (m1, r1)) →
  m1 = exploration_data_append
         (pretty (num + 1), pretty (get_x r), pretty (get_y r), a)
         (with_prev_runner (position r) (path_append (position r) m)) ∧
  orientation r1 ∈ orientations ∧
  a ∈ action_codes ∧
  open_step m (position r) (position r1) ∧
  not_sealed m (position r1).
Proof.
  rewrite explore_body_eq; simpl.
  destruct (move _) as [[a' | e] [m2 r2]] eqn:Hmove; simpl; [| done].
  pose proof (move_Ok_not_sealed _ _ _ _ _ Hmove) as Hns.
  pose proof (move_Ok_open_step _ _ _ _ _ Hmove) as Hstep.
  apply move_Ok_inv in Hmove as (_ & -> & Hv' & Ha & _ & _). simpl.
  intros [= <- <- <-]. done.
Qed.

(** One iteration that raises: the runner, with a valid orientation,
    stands in a sealed cell. *)
Lemma explore_body_Raise_inv num m r e w' :
  orientation r ∈ orientations →
  explore_body num (m, r) = (Raise e, w') →
  e = ValueError "" ∧
  get_walls m (x r) (y r) = (true, true, true, true) ∧
  w' = (with_prev_runner (position r) (path_append (position r) m),
        set_orientation (opposite (orientation r)) r).
Proof.
  intros Hv. rewrite explore_body_eq; simpl.
  pose proof (move_maze (path_append (get_x r, get_y r) m, r)) as Hmaze.
  destruct (move _) as [[a' | e'] [m2 r2]] eqn:Hmove; simpl in *.
  - rewrite Hmaze; simpl. discriminate.
  - intros [= <- <-]. by apply (move_Raise_inv _ _ _ _ Hv) in Hmove.
Qed.

(** The whole loop, when it ends normally. *)
Lemma explore_loop_Ok fuel goal num actions m r num' actions' m' r' :
  explore_loop fuel goal num actions (m, r)
  = Some (Ok (num', actions'), (m', r')) →
  ∃ t acts,
    path m' = path m ++ t ∧
    exploration_data m' = exploration_data m ++ log_rows num t acts ∧
    length acts = length t ∧
    num' = num + Z.of_nat (length t) ∧
    actions' = foldl (λ s a, s +:+ a) actions acts ∧
    Forall (λ a, a ∈ action_codes) acts ∧
    is_walk m (t ++ [goal]) ∧
    head (t ++ [goal]) = Some (position r) ∧
    position r' = goal ∧
    (goal ∉ t) ∧
    (h_walls m' = h_walls m ∧ v_walls m' = v_walls m).
Proof.
  revert num actions m r.
  induction fuel as [| fuel IH]; intros num actions m r; simpl;
    case_decide as Hgoal; try discriminate.
  - intros [= <- <- <- <-]. exists [], []. rewrite !app_nil_r; simpl.
    split_and!; try done;
      [lia | unfold position; by rewrite Hgoal | apply not_elem_of_nil].
  - destruct (explore_body num (m, r)) as [[a | e] [m1 r1]] eqn:Hbody;
      [| discriminate].
    apply explore_body_Ok_inv in Hbody as (-> & Hv1 & Ha & Hstep & _).
    intros (t & acts & Hp & Hd & Hlen & Hnum & Hact & Hcodes & Hwalk & Hhead
            & Hat & Hnot & Hh & Hv)%IH.
    exists (position r :: t), (a :: acts).
    split_and!; simpl; try done.
    + rewrite Hp. unfold path, path_append; simpl. by rewrite <- app_assoc.
    + rewrite Hd. unfold exploration_data, exploration_data_append; simpl.
      by rewrite <- app_assoc.
    + by rewrite Hlen.
    + rewrite Hnum. lia.
    + by constructor.
    + destruct (t ++ [goal]) as [| c' rest] eqn:Ht; [done |].
      injection Hhead as ->. apply is_walk_cons_cons. split; [done |].
      eapply is_walk_same_walls; [| | exact Hwalk]; reflexivity.
    + apply not_elem_of_cons. by split.
  - intros [= <- <- <- <-]. exists [], []. rewrite !app_nil_r; simpl.
    split_and!; try done;
      [lia | unfold position; by rewrite Hgoal | apply not_elem_of_nil].
Qed.

(** From a cell that is not sealed the loop never raises. *)
Lemma explore_loop_no_raise fuel goal num actions m r e w' :
  orientation r ∈ orientations → not_sealed m (position r) →
  explore_loop fuel goal num actions (m, r) ≠ Some (Raise e, w').
Proof.
  revert num actions m r.
  induction fuel as [| fuel IH]; intros num actions m r Hv Hns; simpl;
    case_decide as Hgoal; try discriminate.
  destruct (explore_body num (m, r)) as [[a | e1] [m1 r1]] eqn:Hbody.
  - apply explore_body_Ok_inv in Hbody as (-> & Hv1 & _ & _ & Hns1).
    by apply IH.
  - apply (explore_body_Raise_inv _ _ _ _ _ Hv) in Hbody as (_ & Hsealed & _).
    by destruct Hns.
Qed.

(** The whole loop, when it raises: this can only be at its first
    iteration. *)
Lemma explore_loop_Raise_inv fuel goal num actions m r e w' :
  orientation r ∈ orientations →
  explore_loop fuel goal num actions (m, r) = Some (Raise e, w') →
  e = ValueError "" ∧
  position r ≠ goal ∧
  get_walls m (x r) (y r) = (true, true, true, true) ∧
  w' = (with_prev_runner (position r) (path_append (position r) m),
        set_orientation (opposite (orientation r)) r).
Proof.
  intros Hv. destruct fuel as [| fuel]; simpl;
    case_decide as Hgoal; try discriminate.
  destruct (explore_body num (m, r)) as [[a | e1] [m1 r1]] eqn:Hbody.
  - apply explore_body_Ok_inv in Hbody as (-> & Hv1 & _ & _ & Hns).
    intros Hloop. by apply explore_loop_no_raise in Hloop.
  - intros [= <- <-].
    apply (explore_body_Raise_inv _ _ _ _ _ Hv) in Hbody as (-> & Hs & ->).
    done.
Qed.

(** In a sealed cell away from the goal the first iteration raises. *)
Lemma explore_loop_sealed fuel goal num actions m r :
  orientation r ∈ orientations →
  position r ≠ goal →
  get_walls m (x r) (y r) = (true, true, true, true) →
  explore_loop (S fuel) goal num actions (m, r)
  = Some (Raise (ValueError ""),
          (with_prev_runner (position r) (path_append (position r) m),
           set_orientation (opposite (orientation r)) r)).
Proof.
  intros Hv Hgoal Hsealed. simpl. case_decide; [| done].
  rewrite explore_body_eq; simpl.
  by rewrite (move_sealed (path_append (get_x r, get_y r) m) r Hv Hsealed).
Qed.

End explore_more.

(** X9 (maze.py, [explore], [move] and [go_straight]): on a maze with
    rendering off (both flags of [render_settings] false, as [__init__]
    leaves them) and for a runner with a valid orientation, [explore] can
    raise only at its very first move
    and only the wall-ahead [ValueError] of [go_straight]: when it raises,
    the runner is not on the goal and its cell is walled on all four
    sides, the trace has received that one cell and the runner has been
    turned around; conversely from such a cell, with at least one
    iteration allowed, it does raise.  After any move has succeeded no
    later move raises. *)
Theorem explore_raises_only_when_sealed (fuel : nat) (goal : coord)
    (m : Maze) (r : Runner) :
  render_settings m = (false, false) →
  orientation r ∈ orientations →
  let w_raise := (with_prev_runner (position r) (path_append (position r) m),
                  set_orientation (opposite (orientation r)) r) in
  (∀ e w', explore fuel goal (m, r) = Some (Raise e, w') →
     e = ValueError "" ∧ position r ≠ goal ∧
     get_walls m (x r) (y r) = (true, true, true, true) ∧ w' = w_raise) ∧
  (position r ≠ goal →
   get_walls m (x r) (y r) = (true, true, true, true) →
   explore (S fuel) goal (m, r) = Some (Raise (ValueError ""), w_raise)).
Proof.
  intros _ Hv w_raise. split.
  - intros e w'. rewrite explore_eq.
    destruct (explore_loop fuel goal 0 "" (m, r))
      as [[[[num actions] | e1] w1] |] eqn:Hloop; try discriminate.
    intros [= <- <-]. by apply (explore_loop_Raise_inv _ _ _ _ _ _ _ _ Hv) in Hloop.
  - intros Hgoal Hsealed. rewrite explore_eq.
    by rewrite (explore_loop_sealed fuel goal 0 "" m r Hv Hgoal Hsealed).
Qed.

Lemma explore_raises_only_when_sealed_witness :
  explore 1 (1, 0) (init 1 1, create_runner 0 0 "E")
  = Some (Raise (ValueError ""),
          (with_prev_runner (0, 0) (path_append (0, 0) (init 1 1)),
           create_runner 0 0 "W")).
Proof.
  assert (Hv : orientation (create_runner 0 0 "E") ∈ orientations)
    by (apply orientation_cases; simpl; tauto).
  apply (proj2 (explore_raises_only_when_sealed 0 (1, 0) (init 1 1)
                  (create_runner 0 0 "E") eq_refl Hv)).
  - discriminate.
  - vm_compute. reflexivity.
Defined.

(** X10 (maze.py, [shortest_path]): on a maze with rendering off (both
    flags of [render_settings] false, as [__init__] leaves them) a call
    of [shortest_path] raises exactly when at least one loop iteration
    is allowed, the start (by default (0, 0)) differs from the goal (by
    default (width - 1, height - 1)) and the start cell is walled on all
    four sides; the exception is then the [ValueError] of [go_straight]
    and the maze is left with the start appended to its trace and
    recorded in [prev_runner]. *)
Theorem shortest_path_raises_iff (fuel : nat) (starting goal : option coord)
    (m : Maze) (e : exn) (m' : Maze) :
  render_settings m = (false, false) →
  let s := default (0, 0) starting in
  let g := default (width m - 1, height m - 1) goal in
  shortest_path fuel starting goal m = Some (Raise e, m') ↔
  fuel ≠ 0%nat ∧ e = ValueError "" ∧ s ≠ g ∧
  get_walls m s.1 s.2 = (true, true, true, true) ∧
  m' = with_prev_runner s (path_append s m).
Proof.
  intros _ s g. rewrite shortest_path_eq. cbv zeta. fold s g.
  set (r := create_runner s.1 s.2 "N").
  assert (Hv : orientation r ∈ orientations)
    by (apply orientation_cases; simpl; tauto).
  assert (Hpos : position r = s) by (by destruct s).
  rewrite explore_eq. split.
  - destruct (explore_loop fuel g 0 "" (m, r))
      as [[[[num actions] | e1] w1] |] eqn:Hloop; try discriminate.
    intros [= <- <-].
    assert (fuel ≠ 0%nat) as Hfuel.
    { intros ->. simpl in Hloop. by case_decide. }
    apply (explore_loop_Raise_inv _ _ _ _ _ _ _ _ Hv) in Hloop
      as (-> & Hgoal & Hsealed & ->).
    rewrite Hpos in *. done.
  - intros (Hfuel & -> & Hgoal & Hsealed & ->).
    destruct fuel as [| fuel]; [done |].
    rewrite (explore_loop_sealed fuel g 0 "" m r Hv); simpl;
      rewrite ?Hpos; done.
Qed.

Lemma shortest_path_raises_iff_witness :
  shortest_path 3 None None (add_vertical_wall 0 1 (init 2 1))
  = Some (Raise (ValueError ""),
          with_prev_runner (0, 0)
            (path_append (0, 0) (add_vertical_wall 0 1 (init 2 1)))).
Proof.
  apply (shortest_path_raises_iff 3 None None
           (add_vertical_wall 0 1 (init 2 1))); [reflexivity |].
  split_and!; done.
Defined.

Section explore_trace.

Implicit Types (m : Maze) (r : Runner) (t : list coord).


Lemma is_walk_goal_last m t goal :
  last (t ++ [goal]) = Some goal.
Proof. apply last_snoc. Qed.

End explore_trace.

(** X11 (maze.py, [explore]): when [explore] returns, what it has appended
    to the trace is a walk through the maze: it starts with the cell the
    runner started on and ends with the goal, which it meets nowhere
    before; each cell is next to the one before it, across a side
    without wall; the runner is left on the goal; the walls are what they
    were; and if the maze has its boundary walls and the runner started
    on the grid, every cell of the walk is on the grid. *)
Theorem explore_trace_is_walk (fuel : nat) (goal : coord) (m : Maze)
    (r : Runner) (actions : string) (m' : Maze) (r' : Runner) :
  explore fuel goal (m, r) = Some (Ok actions, (m', r')) →
  ∃ t,
    path m' = path m ++ t ++ [goal] ∧
    is_walk m (t ++ [goal]) ∧
    head (t ++ [goal]) = Some (position r) ∧
    (goal ∉ t) ∧
    position r' = goal ∧
    (h_walls m' = h_walls m ∧ v_walls m' = v_walls m) ∧
    (∀ w h, boundary_walls w h m → in_bounds w h (position r) →
            Forall (in_bounds w h) (t ++ [goal])).
Proof.
  rewrite explore_eq.
  destruct (explore_loop fuel goal 0 "" (m, r))
    as [[[[num actions1] | e1] [m1 r1]] |] eqn:Hloop; try discriminate.
  simpl. intros [= <- <- <-].
  apply explore_loop_Ok in Hloop
    as (t & acts & Hp & _ & _ & _ & _ & _ & Hwalk & Hhead & Hat & Hnot & Hh & Hv).
  exists t. split_and!; try done.
  - change (path (path_append (get_x r1, get_y r1) m1))
      with (path m1 ++ [position r1]).
    by rewrite Hp, Hat, <- app_assoc.
  - intros w h Hb Hin. by eapply is_walk_in_bounds.
Qed.

Lemma explore_trace_is_walk_witness :
  ∃ t, [(0, 0); (0, 1); (1, 1)] = [] ++ t ++ [(1, 1)] ∧
       is_walk (init 2 2) (t ++ [(1, 1)]).
Proof.
  assert (Hrun : explore 5 (1, 1) (init 2 2, create_runner 0 0 "N")
                 = Some (Ok "FRF",
                         (path_append (1, 1)
                            (exploration_data_append ("2", "0", "1", "RF")
                               (with_prev_runner (0, 1)
                                  (path_append (0, 1)
                                     (exploration_data_append
                                        ("1", "0", "0", "F")
                                        (with_prev_runner (0, 0)
                                           (path_append (0, 0) (init 2 2))))))),
                          create_runner 1 1 "E")))
    by (vm_compute; reflexivity).
  destruct (explore_trace_is_walk _ _ _ _ _ _ _ Hrun) as (t & Hp & Hwalk & _).
  exists t. split; [exact Hp | exact Hwalk].
Defined.



(** ** maze.py: the simplified path *)

Section simplifier_more.

Implicit Types (c : coord) (t : list coord).

Lemma simplify_step_sublist (st : list coord * gmap coord nat) c t :
  st.1 `sublist_of` t → (simplify_step st c).1 `sublist_of` t ++ [c].
Proof.
  destruct st as [out idx]; simpl. intros Hsub.
  unfold simplify_step; simpl. destruct (idx !! c) as [k |]; simpl.
  - etrans; [apply sublist_take |]. by apply sublist_inserts_r.
  - by apply sublist_app.
Qed.

Lemma simplify_sublist t : simplify t `sublist_of` t.
Proof.
  induction t as [| c t IH] using rev_ind; [done |].
  rewrite simplify_snoc. by apply simplify_step_sublist.
Qed.

End simplifier_more.

(** X13 (maze.py, loop removal in [shortest_path]): the simplified path is
    obtained from the trace by deleting coordinates: it is a subsequence
    of the trace in the same order, so it is never longer than the trace,
    each of its coordinates comes from the trace, and it is empty only
    for the empty trace. *)
Theorem loop_removal_is_subsequence (t : list coord) :
  loop_removal t `sublist_of` t ∧
  (length (loop_removal t) ≤ length t)%nat ∧
  (∀ c, c ∈ loop_removal t → c ∈ t) ∧
  (loop_removal t = [] ↔ t = []).
Proof.
  rewrite loop_removal_simplify.
  pose proof (simplify_sublist t) as Hsub. split_and!.
  - done.
  - by apply sublist_length.
  - intros c Hc. by eapply elem_of_sublist.
  - split; [| by intros ->].
    intros Hnil. pose proof (simplify_head t) as Hhead.
    rewrite Hnil in Hhead. by destruct t.
Qed.

(** X14 (maze.py, [shortest_path]): on a maze whose trace is empty, as
    after construction, a call of [shortest_path] that returns gives a
    path without repeated cell that starts at the start (by default
    (0, 0)) and ends at the goal (by default (width - 1, height - 1)),
    and each of its cells was visited by the exploration. *)
Theorem first_run_path_endpoints (fuel : nat) (starting goal : option coord)
    (m : Maze) (p : list coord) (m' : Maze) :
  path m = [] →
  shortest_path fuel starting goal m = Some (Ok p, m') →
  NoDup p ∧
  head p = Some (default (0, 0) starting) ∧
  last p = Some (default (width m - 1, height m - 1) goal) ∧
  (∀ c, c ∈ p → c ∈ path m').
Proof.
  intros Hp Hrun.
  assert (shortest_path fuel (Some (default (0, 0) starting))
            (Some (default (width m - 1, height m - 1) goal)) m
          = Some (Ok p, m')) as Hrun'
    by (by destruct starting, goal).
  destruct (shortest_path_fresh_endpoints _ _ _ _ _ _ Hp Hrun')
    as (Hnd & Hhead & Hlast).
  split_and!; try done.
  destruct (shortest_path_trace _ _ _ _ _ _ Hrun) as (t & Ht & ->).
  rewrite Ht, loop_removal_simplify. intros c Hc.
  eapply elem_of_sublist; [exact Hc | apply simplify_sublist].
Qed.

Lemma first_run_path_endpoints_witness :
  ∃ p m', shortest_path 10 (Some (1, 0)) None
            (add_horizontal_wall 1 1 (init 2 2)) = Some (Ok p, m') ∧
          NoDup p ∧ head p = Some (1, 0) ∧ last p = Some (1, 1).
Proof.
  assert (Hrun : ∃ m', shortest_path 10 (Some (1, 0)) None
                         (add_horizontal_wall 1 1 (init 2 2))
                       = Some (Ok [(1, 0); (0, 0); (0, 1); (1, 1)], m')).
  { eexists. vm_compute. reflexivity. }
  destruct Hrun as [m' Hrun].
  destruct (first_run_path_endpoints 10 (Some (1, 0)) None
              (add_horizontal_wall 1 1 (init 2 2)) _ m' eq_refl Hrun)
    as (Hnd & Hhead & Hlast & _).
  exists [(1, 0); (0, 0); (0, 1); (1, 1)], m'.
  split; [exact Hrun |]. split; [exact Hnd |]. split; [exact Hhead | exact Hlast].
Defined.

(** ** maze.py: a corridor, end to end *)

Section corridor.

Implicit Types (m : Maze) (k : nat).

(** One iteration of the loop in a corridor of width 1, below its last
    cell: the runner has walls left and right, none ahead, and goes
    straight. *)
Lemma corridor_body n m (y num : Z) :
  h_walls m = h_walls (init 1 n) → v_walls m = v_walls (init 1 n) →
  0 ≤ y < n - 1 →
  explore_body num (m, create_runner 0 y "N")
  = (Ok "F",
     (exploration_data_append (pretty (num + 1), pretty 0, pretty y, "F")
        (with_prev_runner (0, y) (path_append (0, y) m)),
      create_runner 0 (y + 1) "N")).
Proof.
  intros Hh Hv Hy. rewrite explore_body_eq; simpl.
  set (m1 := path_append (0, y) m). set (r := create_runner 0 y "N").
  assert (Hvalid : orientation r ∈ orientations)
    by (apply orientation_cases; simpl; tauto).
  pose proof (move_valid m1 r Hvalid) as Hmove. cbv zeta in Hmove.
  change (get_walls m1 (get_x r) (get_y r)) with (get_walls m1 0 y) in Hmove.
  assert (get_walls m1 0 y = (false, true, bool_decide (y = 0), true)) as Hw.
  { rewrite (get_walls_same (init 1 n) m1) by done.
    pose proof (init_get_walls 1 n (0, y)) as Hi. simpl in Hi.
    rewrite Hi by (unfold in_bounds; simpl; lia).
    do 3 f_equal. apply bool_decide_eq_false. lia. }
  rewrite Hw in Hmove.
  change (rotate (orientation r) (false, true, bool_decide (y = 0), true))
    with (true, false, true, bool_decide (y = 0)) in Hmove.
  simpl in Hmove. rewrite Hmove. reflexivity.
Qed.

Lemma corridor_cells_cons (y : Z) k :
  corridor_cells y (S k) = (0, y) :: corridor_cells (y + 1) k.
Proof.
  unfold corridor_cells. rewrite seqZ_cons by lia. simpl.
  do 3 f_equal; lia.
Qed.

Lemma corridor_cells_snoc (y : Z) k :
  corridor_cells y (S k) = corridor_cells y k ++ [(0, y + Z.of_nat k)].
Proof. unfold corridor_cells. by rewrite seqZ_S, fmap_app. Qed.

Lemma corridor_cells_NoDup (y : Z) k : NoDup (corridor_cells y k).
Proof.
  unfold corridor_cells. apply NoDup_fmap_2_strong; [| apply NoDup_seqZ].
  by intros j1 j2 _ _ [= ->].
Qed.

(** The loop along the corridor: [k] cells below the goal, [k] moves. *)
Lemma corridor_loop n k :
  ∀ fuel (y num : Z) actions m,
    h_walls m = h_walls (init 1 n) → v_walls m = v_walls (init 1 n) →
    0 ≤ y → y + Z.of_nat k = n - 1 → (k ≤ fuel)%nat →
    ∃ m',
      explore_loop fuel (0, n - 1) num actions (m, create_runner 0 y "N")
      = Some (Ok (num + Z.of_nat k,
                  foldl (λ s a, s +:+ a) actions (replicate k "F")),
              (m', create_runner 0 (n - 1) "N")) ∧
      path m' = path m ++ corridor_cells y k ∧
      exploration_data m'
      = exploration_data m ++ log_rows num (corridor_cells y k) (replicate k "F").
Proof.
  induction k as [| k IH]; intros fuel y num actions m Hh Hv Hy Hk Hfuel.
  - assert (y = n - 1) as -> by lia. exists m.
    rewrite explore_loop_at_goal by done. simpl.
    rewrite Z.add_0_r, !app_nil_r. done.
  - destruct fuel as [| fuel]; [lia |]. simpl explore_loop.
    case_decide as Hgoal; [| injection Hgoal as Hgoal; lia].
    rewrite (corridor_body n m y num) by (done || lia).
    destruct (IH fuel (y + 1) (num + 1) (actions +:+ "F")
                (exploration_data_append
                   (pretty (num + 1), pretty 0, pretty y, "F")
                   (with_prev_runner (0, y) (path_append (0, y) m))))
      as (m' & Hloop & Hp & Hd); try done; try lia.
    exists m'. rewrite Hloop. split_and!.
    + replace (num + Z.of_nat (S k)) with (num + 1 + Z.of_nat k) by lia.
      reflexivity.
    + rewrite Hp, corridor_cells_cons.
      change (path (exploration_data_append _ _)) with (path m ++ [(0, y)]).
      by rewrite <- app_assoc.
    + rewrite Hd, corridor_cells_cons.
      change (exploration_data (exploration_data_append ?row _))
        with (exploration_data m ++ [row]).
      by rewrite <- app_assoc.
Qed.

End corridor.

(** X15 (maze.py, [explore] and [shortest_path]): in a maze of width 1 and
    height k + 1 with no interior wall, the runner started at (0, 0)
    facing north with goal (0, k) goes straight k times, given fuel for k
    iterations or more: [explore] returns "F" repeated k times, the trace
    is (0, 0), ..., (0, k), one row per move is logged, and
    [shortest_path] with its default arguments returns the trace
    itself. *)
Theorem corridor_goes_straight (k fuel : nat) :
  (k ≤ fuel)%nat →
  let n := Z.of_nat (S k) in
  ∃ m',
    explore fuel (0, Z.of_nat k) (init 1 n, create_runner 0 0 "N")
    = Some (Ok (concat_actions (replicate k "F")),
            (m', create_runner 0 (Z.of_nat k) "N")) ∧
    path m' = corridor_cells 0 (S k) ∧
    exploration_data m'
    = [("Step", "x-coordinate", "y-coordinate", "Actions")]
      ++ log_rows 0 (corridor_cells 0 k) (replicate k "F") ∧
    shortest_path fuel None None (init 1 n)
    = Some (Ok (corridor_cells 0 (S k)), m').
Proof.
  intros Hfuel n.
  destruct (corridor_loop n k fuel 0 0 "" (init 1 n))
    as (m1 & Hloop & Hp & Hd); try done; try lia.
  replace (n - 1) with (Z.of_nat k) in Hloop by lia.
  exists (path_append (0, Z.of_nat k) m1).
  assert (explore fuel (0, Z.of_nat k) (init 1 n, create_runner 0 0 "N")
          = Some (Ok (concat_actions (replicate k "F")),
                  (path_append (0, Z.of_nat k) m1,
                   create_runner 0 (Z.of_nat k) "N"))) as Hexp
    by (by rewrite explore_eq, Hloop).
  assert (path (path_append (0, Z.of_nat k) m1) = corridor_cells 0 (S k))
    as Hpath.
  { change (path (path_append (0, Z.of_nat k) m1))
      with (path m1 ++ [(0, Z.of_nat k)]).
    by rewrite Hp, corridor_cells_snoc. }
  split_and!; try done.
  rewrite shortest_path_eq. cbv zeta.
  change (default (0, 0) None) with (0, 0).
  change (default (width (init 1 n) - 1, height (init 1 n) - 1) None)
    with (1 - 1, n - 1).
  replace (1 - 1, n - 1) with (0, Z.of_nat k) by (f_equal; lia).
  change (create_runner (0, 0).1 (0, 0).2 "N") with (create_runner 0 0 "N").
  rewrite Hexp. cbv beta iota. cbn [fst snd].
  rewrite Hpath, loop_removal_simplify.
  by rewrite simplify_NoDup_id by apply corridor_cells_NoDup.
Qed.

Lemma corridor_goes_straight_witness :
  ∃ m', shortest_path 5 None None (init 1 4)
        = Some (Ok [(0, 0); (0, 1); (0, 2); (0, 3)], m').
Proof.
  destruct (corridor_goes_straight 3 5) as (m' & _ & _ & _ & Hsp); [lia |].
  exists m'. exact Hsp.
Defined.

(** ** maze_runner.py: reading a maze text *)

Section loops.

Context {A S : Type}.
Implicit Types (l : list A) (body : A → S → result S).

(** A loop that ends normally has established what each of its
    iterations preserves. *)
Lemma for_each_inv (P : list A → S → Prop) body l s0 s :
  P [] s0 →
  (∀ done a s1 s2, a ∈ l → P done s1 → body a s1 = Ok s2 → P (done ++ [a]) s2) →
  for_each l body s0 = Ok s → P l s.
Proof.
  intros H0 Hstep.
  enough (∀ k done s1, l = done ++ k → P done s1 →
                        for_each k body s1 = Ok s → P l s) as Hgen
    by (by apply (Hgen l [] s0)).
  induction k as [| a k IH]; intros done s1 Hl Hdone; simpl.
  - intros [= <-]. by rewrite Hl, app_nil_r.
  - destruct (body a s1) as [s2 | e] eqn:Hbody; simpl; [| done].
    apply (IH (done ++ [a])); [by rewrite <- app_assoc |].
    apply (Hstep done a s1); [| done | done].
    rewrite Hl. apply elem_of_app. right. by left.
Qed.

(** A loop raises what one of its iterations raises. *)
Lemma for_each_Raise body l s0 e :
  for_each l body s0 = Raise e → ∃ a s1, a ∈ l ∧ body a s1 = Raise e.
Proof.
  revert s0. induction l as [| a l IH]; intros s0; simpl; [done |].
  destruct (body a s0) as [s2 | e'] eqn:Hbody; simpl.
  - intros (a' & s1 & Hin & Hr)%IH. exists a', s1. split; [by right | done].
  - intros [= <-]. exists a, s0. split; [by left | done].
Qed.

(** A loop all of whose iterations end normally ends normally. *)
Lemma for_each_Ok (I : S → Prop) body l s0 :
  I s0 →
  (∀ a s1, a ∈ l → I s1 → ∃ s2, body a s1 = Ok s2 ∧ I s2) →
  ∃ s, for_each l body s0 = Ok s ∧ I s.
Proof.
  revert s0. induction l as [| a l IH]; intros s0 H0 Hstep; simpl; [eauto |].
  destruct (Hstep a s0) as (s2 & -> & H2); [by left | done |]. simpl.
  apply IH; [done |]. intros a' s1 Hin. apply Hstep. by right.
Qed.

End loops.

Section indexing.

Context {A : Type}.
Implicit Types (l : list A).

Lemma index_at_nonneg what l (i : Z) :
  0 ≤ i →
  index_at what l i
  = match l !! Z.to_nat i with
    | Some a => Ok a
    | None => Raise (IndexError (what +:+ " index out of range"))
    end.
Proof.
  intros Hi. unfold index_at. cbv zeta.
  destruct (decide (i < 0)); [lia |]. by destruct (decide (i < 0)); [lia |].
Qed.

Lemma index_at_in_range what l (i : Z) :
  0 ≤ i < len l → ∃ a, index_at what l i = Ok a ∧ l !! Z.to_nat i = Some a.
Proof.
  unfold len. intros Hi. rewrite index_at_nonneg by lia.
  destruct (lookup_lt_is_Some_2 l (Z.to_nat i)) as [a Ha]; [lia |].
  rewrite Ha. eauto.
Qed.

Lemma index_at_last what l :
  l ≠ [] →
  ∃ a, index_at what l (-1) = Ok a ∧ l !! Z.to_nat (len l - 1) = Some a.
Proof.
  intros Hne. unfold index_at, len. cbv zeta.
  assert (0 < length l)%nat by (destruct l; [done | simpl; lia]).
  destruct (decide (-1 < 0)); [| lia].
  destruct (decide (-1 + Z.of_nat (length l) < 0)); [lia |].
  replace (-1 + Z.of_nat (length l)) with (Z.of_nat (length l) - 1) by lia.
  destruct (lookup_lt_is_Some_2 l (Z.to_nat (Z.of_nat (length l) - 1)))
    as [a Ha]; [lia |].
  rewrite Ha. eauto.
Qed.

End indexing.

Section reading_walls.

Implicit Types (m : Maze) (line : list ascii) (input_lines : list (list ascii)).

Lemma char_at_lookup input_lines (i j : Z) line :
  0 ≤ i → 0 ≤ j → input_lines !! Z.to_nat i = Some line →
  char_at input_lines i j = line !! Z.to_nat j.
Proof.
  intros Hi Hj Hline. unfold char_at. case_decide; [| lia].
  by rewrite Hline.
Qed.

Lemma h_scanned_ext w h input_lines (seen seen' : Z → Z → Prop) m :
  (∀ y x, seen y x ↔ seen' y x) →
  h_scanned w h input_lines seen m → h_scanned w h input_lines seen' m.
Proof.
  intros Hext [Hm Hwalls]. split; [done |]. intros c. rewrite Hwalls.
  split; (intros [? | (y & x & Hs & ?)]; [by left | right]);
    exists y, x; (split; [by apply Hext | done]).
Qed.

Lemma v_scanned_ext w h input_lines m0 (seen seen' : Z → Z → Prop) m :
  (∀ y x, seen y x ↔ seen' y x) →
  v_scanned w h input_lines m0 seen m → v_scanned w h input_lines m0 seen' m.
Proof.
  intros Hext [Hm Hwalls]. split; [done |]. intros c. rewrite Hwalls.
  split; (intros [? | (y & x & Hs & ?)]; [by left | right]);
    exists y, x; (split; [by apply Hext | done]).
Qed.

(** The inner loop body of the horizontal walls, its two characters
    being known. *)
Lemma horizontal_cell_eq h y line x m c0 c1 :
  0 ≤ x →
  line !! Z.to_nat (2 * x) = Some c0 →
  line !! Z.to_nat (2 * x + 1) = Some c1 →
  horizontal_cell h y line x m
  = if decide (c0 ≠ hash)
    then Raise (ValueError
                  ("The wall intersections in the file are incorrect."
                   +:+ " The character at " +:+ pretty (y * 2 + 1) +:+ ":"
                   +:+ pretty (x * 2 + 1)
                   +:+ " seems wrong. It should be a '#'."))
    else Ok (if decide (c1 = hash)
             then add_horizontal_wall x (h - y) m else m).
Proof.
  intros Hx H0 H1. unfold horizontal_cell.
  rewrite !index_at_nonneg by lia. rewrite H0, H1. simpl.
  destruct (decide (c0 ≠ hash)); [done |]. simpl.
  by destruct (decide (c1 = hash)).
Qed.

Lemma vertical_cell_eq h y line x m c0 :
  0 ≤ x →
  line !! Z.to_nat (2 * x) = Some c0 →
  vertical_cell h y line x m
  = Ok (if decide (c0 = hash)
        then add_vertical_wall (h - y - 1) x m else m).
Proof.
  intros Hx H0. unfold vertical_cell.
  rewrite !index_at_nonneg by lia. rewrite H0. simpl.
  by destruct (decide (c0 = hash)).
Qed.

Lemma h_scanned_add w h input_lines seen m y x c1 :
  0 ≤ y → 0 ≤ x →
  char_at input_lines (2 * y) (2 * x + 1) = Some c1 →
  h_scanned w h input_lines seen m →
  h_scanned w h input_lines (λ y' x', seen y' x' ∨ (y' = y ∧ x' = x))
    (if decide (c1 = hash) then add_horizontal_wall x (h - y) m else m).
Proof.
  intros Hy Hx Hchar [Hm Hwalls].
  assert (_width m = w ∧ _height m = h) as [Hw Hh] by (by rewrite Hm).
  assert (∀ m', h_walls m' = h_walls m → m' = with_h_walls (h_walls m') (init w h) →
           (¬ (c1 = hash ∧ (0 ≤ x ∧ x < w) ∧ (1 ≤ h - y ∧ h - y < h))) →
           h_scanned w h input_lines
             (λ y' x', seen y' x' ∨ (y' = y ∧ x' = x)) m') as Hsame.
  { intros m' Heq Hm' Hno. split; [done |]. intros c. rewrite Heq, Hwalls.
    split; (intros [? | (y' & x' & Hs & Hxr & Hyr & Hc & ->)]; [by left | right]).
    - exists y', x'. split_and!; try done; try lia; by left.
    - destruct Hs as [Hs | [-> ->]].
      + by exists y', x'.
      + destruct Hno. split_and!; try done; try lia. congruence. }
  destruct (decide (c1 = hash)) as [-> | Hne];
    [| apply Hsame; [done | done | tauto]].
  unfold add_horizontal_wall. rewrite Hw, Hh.
  case_decide as Hrange; [| apply Hsame; [done | done | tauto]].
  split.
  - rewrite Hm at 2. reflexivity.
  - intros c. unfold h_walls at 1; simpl. rewrite elem_of_set_add.
    fold (h_walls m). rewrite Hwalls. split.
    + intros [-> | [? | (y' & x' & Hs & Hxr & Hyr & Hc & ->)]].
      * right. exists y, x. split_and!; try done; try lia; by right.
      * by left.
      * right. exists y', x'. split_and!; try done; try lia; by left.
    + intros [? | (y' & x' & [Hs | [-> ->]] & Hxr & Hyr & Hc & ->)].
      * right. by left.
      * right. right. by exists y', x'.
      * by left.
Qed.

Lemma v_scanned_add w h input_lines m0 seen m y x c0 :
  _width m0 = w → _height m0 = h →
  0 ≤ y → 0 ≤ x →
  char_at input_lines (2 * y + 1) (2 * x) = Some c0 →
  v_scanned w h input_lines m0 seen m →
  v_scanned w h input_lines m0 (λ y' x', seen y' x' ∨ (y' = y ∧ x' = x))
    (if decide (c0 = hash) then add_vertical_wall (h - y - 1) x m else m).
Proof.
  intros Hw0 Hh0 Hy Hx Hchar [Hm Hwalls].
  assert (_width m = w ∧ _height m = h) as [Hw Hh] by (by rewrite Hm).
  assert (∀ m', v_walls m' = v_walls m → m' = with_v_walls (v_walls m') m0 →
           (¬ (c0 = hash ∧ (0 ≤ h - y - 1 ∧ h - y - 1 < h) ∧ (1 ≤ x ∧ x < w))) →
           v_scanned w h input_lines m0
             (λ y' x', seen y' x' ∨ (y' = y ∧ x' = x)) m') as Hsame.
  { intros m' Heq Hm' Hno. split; [done |]. intros c. rewrite Heq, Hwalls.
    split; (intros [? | (y' & x' & Hs & Hyr & Hxr & Hc & ->)]; [by left | right]).
    - exists y', x'. split_and!; try done; try lia; by left.
    - destruct Hs as [Hs | [-> ->]].
      + by exists y', x'.
      + destruct Hno. split_and!; try done; try lia. congruence. }
  destruct (decide (c0 = hash)) as [-> | Hne];
    [| apply Hsame; [done | done | tauto]].
  unfold add_vertical_wall. rewrite Hw, Hh.
  case_decide as Hrange; [| apply Hsame; [done | done | tauto]].
  split.
  - rewrite Hm at 2. reflexivity.
  - intros c. unfold v_walls at 1; simpl. rewrite elem_of_set_add.
    fold (v_walls m). rewrite Hwalls. split.
    + intros [-> | [? | (y' & x' & Hs & Hyr & Hxr & Hc & ->)]].
      * right. exists y, x. split_and!; try done; try lia; by right.
      * by left.
      * right. exists y', x'. split_and!; try done; try lia; by left.
    + intros [? | (y' & x' & [Hs | [-> ->]] & Hyr & Hxr & Hc & ->)].
      * right. by left.
      * right. right. by exists y', x'.
      * by left.
Qed.

End reading_walls.

Section reading_rows.

Implicit Types (m : Maze) (line : list ascii) (input_lines : list (list ascii)).

Lemma validated_char w h input_lines (i j : Z) :
  validated w h input_lines → 0 ≤ i ≤ 2 * h → 0 ≤ j ≤ 2 * w →
  ∃ line c, input_lines !! Z.to_nat i = Some line ∧
            line !! Z.to_nat j = Some c ∧
            char_at input_lines i j = Some c.
Proof.
  intros (_ & _ & Hlen & Hlines & _) Hi Hj. unfold len in Hlen.
  destruct (lookup_lt_is_Some_2 input_lines (Z.to_nat i)) as [line Hline];
    [lia |].
  assert (len line = 2 * w + 1) as Hll
    by (by eapply (proj1 (Forall_lookup _ _) Hlines)).
  unfold len in Hll.
  destruct (lookup_lt_is_Some_2 line (Z.to_nat j)) as [c Hc]; [lia |].
  exists line, c. split; [done |]. split; [done |].
  by rewrite (char_at_lookup _ _ _ line) by (done || lia).
Qed.

(** One row of horizontal walls, read to its end. *)
Lemma horizontal_row_Ok w h input_lines seen y m m' :
  validated w h input_lines → 0 ≤ y ≤ h →
  h_scanned w h input_lines seen m →
  horizontal_row w h input_lines y m = Ok m' →
  h_scanned w h input_lines
    (λ y' x', seen y' x' ∨ (y' = y ∧ x' ∈ range w)) m' ∧
  (∀ x, 0 ≤ x < w → char_at input_lines (2 * y) (2 * x) = Some hash).
Proof.
  intros Hval Hy Hscan. unfold horizontal_row.
  destruct (validated_char w h input_lines (2 * y) 0 Hval)
    as (line & _ & Hline & _); [lia | destruct Hval; lia |].
  rewrite index_at_nonneg, Hline by lia. simpl. intros Hloop.
  apply (for_each_inv
           (λ dx m1, h_scanned w h input_lines
                       (λ y' x', seen y' x' ∨ (y' = y ∧ x' ∈ dx)) m1 ∧
                     ∀ x, x ∈ dx → char_at input_lines (2 * y) (2 * x) = Some hash))
    in Hloop.
  - destruct Hloop as [Hs Hi]. split; [done |].
    intros x Hx. apply Hi. apply elem_of_range. lia.
  - split; [| by intros x []%elem_of_nil].
    eapply h_scanned_ext; [| exact Hscan]. intros y' x'. split; [tauto |].
    by intros [? | [_ []%elem_of_nil]].
  - intros dx x m1 m2 Hx%elem_of_range [Hs Hi].
    destruct (validated_char w h input_lines (2 * y) (2 * x) Hval)
      as (line0 & c0 & Hline0 & Hc0 & Hchar0); [lia | lia |].
    destruct (validated_char w h input_lines (2 * y) (2 * x + 1) Hval)
      as (line1 & c1 & Hline1 & Hc1 & Hchar1); [lia | lia |].
    assert (line0 = line) as -> by congruence.
    assert (line1 = line) as -> by congruence.
    rewrite (horizontal_cell_eq h y line x m1 c0 c1) by (done || lia).
    destruct (decide (c0 ≠ hash)) as [| Hc0hash%dec_stable]; [done |].
    intros [= <-]. split.
    + pose proof (h_scanned_add w h input_lines _ m1 y x c1
                    ltac:(lia) ltac:(lia) Hchar1 Hs) as Hadd.
      eapply h_scanned_ext; [| exact Hadd].
      intros y' x'. simpl. rewrite elem_of_app, list_elem_of_singleton. tauto.
    + intros x' [Hin | ->%list_elem_of_singleton]%elem_of_app; [by apply Hi |].
      by rewrite Hchar0, Hc0hash.
Qed.

(** One row of horizontal walls can only raise the intersection error. *)
Lemma horizontal_row_Raise w h input_lines y m e :
  validated w h input_lines → 0 ≤ y ≤ h →
  horizontal_row w h input_lines y m = Raise e →
  ∃ x, 0 ≤ x < w ∧ char_at input_lines (2 * y) (2 * x) ≠ Some hash ∧
       e = ValueError (intersection_message y x).
Proof.
  intros Hval Hy. unfold horizontal_row.
  destruct (validated_char w h input_lines (2 * y) 0 Hval)
    as (line & _ & Hline & _); [lia | destruct Hval; lia |].
  rewrite index_at_nonneg, Hline by lia. simpl.
  intros (x & m1 & Hx%elem_of_range & Hcell)%for_each_Raise.
  destruct (validated_char w h input_lines (2 * y) (2 * x) Hval)
    as (line0 & c0 & Hline0 & Hc0 & Hchar0); [lia | lia |].
  destruct (validated_char w h input_lines (2 * y) (2 * x + 1) Hval)
    as (line1 & c1 & Hline1 & Hc1 & Hchar1); [lia | lia |].
  assert (line0 = line) as -> by congruence.
  assert (line1 = line) as -> by congruence.
  rewrite (horizontal_cell_eq h y line x m1 c0 c1) in Hcell by (done || lia).
  destruct (decide (c0 ≠ hash)) as [Hne |]; [| done].
  injection Hcell as <-. exists x. split; [lia |]. split; [| done].
  rewrite Hchar0. congruence.
Qed.

(** One row of horizontal walls with sound intersections is read to its
    end. *)
Lemma horizontal_row_total w h input_lines y m :
  validated w h input_lines → 0 ≤ y ≤ h →
  (∀ x, 0 ≤ x < w → char_at input_lines (2 * y) (2 * x) = Some hash) →
  ∃ m', horizontal_row w h input_lines y m = Ok m'.
Proof.
  intros Hval Hy Hinter.
  destruct (horizontal_row w h input_lines y m) as [m' | e] eqn:Hrow; [eauto |].
  apply (horizontal_row_Raise w h) in Hrow as (x & Hx & Hne & _); [| done | done].
  by destruct Hne; apply Hinter.
Qed.

(** One row of vertical walls: it is always read to its end. *)
Lemma vertical_row_Ok w h input_lines m0 seen y m :
  validated w h input_lines → _width m0 = w → _height m0 = h →
  0 ≤ y < h →
  v_scanned w h input_lines m0 seen m →
  ∃ m', vertical_row w h input_lines y m = Ok m' ∧
        v_scanned w h input_lines m0
          (λ y' x', seen y' x' ∨ (y' = y ∧ x' ∈ range (w + 1))) m'.
Proof.
  intros Hval Hw0 Hh0 Hy Hscan. unfold vertical_row.
  destruct (validated_char w h input_lines (2 * y + 1) 0 Hval)
    as (line & _ & Hline & _); [lia | destruct Hval; lia |].
  rewrite index_at_nonneg, Hline by lia. simpl.
  assert (∀ dx k m1,
            (∀ x, x ∈ k → 0 ≤ x ≤ w) →
            v_scanned w h input_lines m0
              (λ y' x', seen y' x' ∨ (y' = y ∧ x' ∈ dx)) m1 →
            ∃ m', for_each k (vertical_cell h y line) m1 = Ok m' ∧
                  v_scanned w h input_lines m0
                    (λ y' x', seen y' x' ∨ (y' = y ∧ x' ∈ dx ++ k)) m') as Hgen.
  { intros dx k. revert dx. induction k as [| x k IH]; intros dx m1 Hk Hs; simpl.
    - exists m1. split; [done |]. by rewrite app_nil_r.
    - assert (0 ≤ x ≤ w) as Hx by (apply Hk; by left).
      destruct (validated_char w h input_lines (2 * y + 1) (2 * x) Hval)
        as (line0 & c0 & Hline0 & Hc0 & Hchar0); [lia | lia |].
      assert (line0 = line) as -> by congruence.
      rewrite (vertical_cell_eq h y line x m1 c0) by (done || lia). simpl.
      destruct (IH (dx ++ [x])
                  (if decide (c0 = hash)
                   then add_vertical_wall (h - y - 1) x m1 else m1))
        as (m' & Hloop & Hs').
      + intros x' Hx'. apply Hk. by right.
      + pose proof (v_scanned_add w h input_lines m0 _ m1 y x c0
                      Hw0 Hh0 ltac:(lia) ltac:(lia) Hchar0 Hs) as Hadd.
        eapply v_scanned_ext; [| exact Hadd].
        intros y' x'. simpl. rewrite elem_of_app, list_elem_of_singleton. tauto.
      + exists m'. split; [done |]. eapply v_scanned_ext; [| exact Hs'].
        intros y' x'. simpl. by rewrite <- app_assoc. }
  destruct (Hgen [] (range (w + 1)) m) as (m' & Hloop & Hs).
  - intros x Hx%elem_of_range. lia.
  - eapply v_scanned_ext; [| exact Hscan]. intros y' x'. split; [tauto |].
    by intros [? | [_ []%elem_of_nil]].
  - exists m'. split; [done |]. exact Hs.
Qed.

End reading_rows.

Section validation.

Implicit Types (line : list ascii) (input_lines : list (list ascii)).

Lemma all_hash_Forall line :
  all_hash line = true ↔ Forall (λ c, c = hash) line.
Proof.
  unfold all_hash. induction line as [| c line IH]; simpl.
  - split; [constructor | done].
  - rewrite andb_true_iff, bool_decide_eq_true, IH, Forall_cons. done.
Qed.

Lemma for_each_checks {A} (l : list A) (chk : A → result unit) :
  for_each l (λ a _, chk a) tt = Ok tt ↔ Forall (λ a, chk a = Ok tt) l.
Proof.
  induction l as [| a l IH]; simpl.
  - split; [constructor | done].
  - rewrite Forall_cons. destruct (chk a) as [[] | e]; simpl.
    + rewrite IH. tauto.
    + split; [done | by intros [? _]].
Qed.

Lemma Forall_enumerate {A} (P : A → Prop) (l : list A) :
  Forall (λ ia, P ia.2) (enumerate l) ↔ Forall P l.
Proof.
  unfold enumerate. rewrite !Forall_lookup. split.
  - intros H i a Ha. apply (H i (Z.of_nat i, a)).
    by rewrite list_lookup_imap, Ha.
  - intros H i [j a]. rewrite list_lookup_imap.
    destruct (l !! i) as [a' |] eqn:Ha; simpl; [| done].
    intros [= <- <-]. by eapply H.
Qed.

Lemma check_line_Ok w i line :
  check_line w i line = Ok tt ↔
  len line = 2 * w + 1 ∧ head line = Some hash ∧ last line = Some hash ∧
  Forall (λ c, c = hash ∨ c = dot) line.
Proof.
  unfold check_line, startswith_hash, endswith_hash.
  destruct (bool_decide_reflect (len line ≠ 2 * w + 1)) as [Hlen | Hlen];
    simpl; [split; [done | tauto] |].
  apply dec_stable in Hlen.
  destruct (bool_decide_reflect (head line = Some hash)) as [Hhead | Hhead];
    simpl; [| split; [done | tauto]].
  destruct (bool_decide_reflect (last line = Some hash)) as [Hlast | Hlast];
    simpl; [| split; [done | tauto]].
  rewrite (for_each_checks (enumerate line)
             (λ jc, if bool_decide (jc.2 ≠ hash ∧ jc.2 ≠ dot)
                    then Raise (ValueError ("Invalid character at position "
                                  +:+ pretty (jc.1 + 1) +:+ " in line "
                                  +:+ pretty (i + 1) +:+ "."))
                    else Ok tt)).
  rewrite <- (Forall_enumerate (λ c, c = hash ∨ c = dot)).
  split.
  - intros Hall. split_and!; try done.
    eapply Forall_impl; [exact Hall |]. intros [j c]; simpl.
    destruct (bool_decide_reflect (c ≠ hash ∧ c ≠ dot)) as [| Hno]; [done |].
    intros _. destruct (decide (c = hash)); [tauto |].
    destruct (decide (c = dot)); tauto.
  - intros (_ & _ & _ & Hall).
    eapply Forall_impl; [exact Hall |]. intros [j c]; simpl.
    intros Hc. destruct (bool_decide_reflect (c ≠ hash ∧ c ≠ dot)); [| done].
    tauto.
Qed.

Lemma check_line_Raise w i line e :
  check_line w i line = Raise e →
  ∃ msg, e = ValueError msg ∧
         msg ≠ "There is something wrong with the maze file.".
Proof.
  unfold check_line.
  destruct (_ || _ || _); [intros [= <-]; eexists; split; [done |]; done |].
  intros ([j c] & [] & _ & Hbody)%for_each_Raise. simpl in Hbody.
  destruct (bool_decide _); [| done].
  injection Hbody as <-. eexists. split; [done |]. done.
Qed.

(** All lines have the same length exactly when the set of their
    lengths has one element. *)
Lemma one_line_length input_lines :
  Z.of_nat (size (list_to_set (len <$> input_lines) : gset Z)) = 1 ↔
  ∃ first rest, input_lines = first :: rest ∧
                Forall (λ line, len line = len first) input_lines.
Proof.
  split.
  - intros Hsize. destruct input_lines as [| first rest].
    { change (Z.of_nat (size (∅ : gset Z)) = 1) in Hsize.
      rewrite size_empty in Hsize. lia. }
    exists first, rest. split; [done |].
    assert (size (list_to_set (len <$> first :: rest) : gset Z) = 1%nat)
      as [v Hv]%size_1_elem_of by lia.
    assert (∀ line, line ∈ first :: rest → len line = v) as Hall.
    { intros line Hin.
      assert (len line ∈ (list_to_set (len <$> first :: rest) : gset Z)) as Hl
        by (apply elem_of_list_to_set, list_elem_of_fmap; eauto).
      rewrite Hv in Hl. by apply elem_of_singleton in Hl. }
    apply Forall_forall. intros line Hin.
    rewrite (Hall line Hin). symmetry. apply Hall. by left.
  - intros (first & rest & -> & Hall).
    assert ((list_to_set (len <$> first :: rest) : gset Z) = {[ len first ]})
      as ->.
    { apply set_eq. intros v.
      rewrite elem_of_list_to_set, list_elem_of_fmap, elem_of_singleton.
      split.
      - intros (line & -> & Hin).
        by apply (proj1 (Forall_forall _ _) Hall).
      - intros ->. exists first. split; [done | by left]. }
    by rewrite size_singleton.
Qed.

End validation.

Section validated_facts.

Implicit Types (line : list ascii) (input_lines : list (list ascii)).

(** What a line must satisfy to pass [check_line]. *)
Lemma validated_checks w h input_lines :
  validated w h input_lines →
  ∃ first rest lastl,
    input_lines = first :: rest ∧
    Forall (λ line, len line = len first) input_lines ∧
    len input_lines `mod` 2 = 1 ∧
    len input_lines `div` 2 = h ∧
    len first `div` 2 = w ∧
    Forall (λ c, c = hash) first ∧
    input_lines !! Z.to_nat (len input_lines - 1) = Some lastl ∧
    Forall (λ c, c = hash) lastl ∧
    Forall (λ line, check_line w 0 line = Ok tt) input_lines.
Proof.
  intros Hval. pose proof Hval as (Hw & Hh & Hlen & Hlines & Hchars & Hrows & Hcols).
  destruct (validated_char w h input_lines 0 0 Hval)
    as (first & _ & Hfirst & _); [lia | lia |].
  destruct (validated_char w h input_lines (2 * h) 0 Hval)
    as (lastl & _ & Hlast & _); [lia | lia |].
  destruct input_lines as [| first' rest]; [done |].
  injection Hfirst as ->.
  assert (∀ line, line ∈ first :: rest → len line = 2 * w + 1) as Hl
    by (by apply Forall_forall).
  assert (len first = 2 * w + 1) as Hlf by (apply Hl; by left).
  assert (∀ i line, 0 ≤ i ≤ 2 * h → (first :: rest) !! Z.to_nat i = Some line →
                    Forall (λ c, c = hash) line →
                    True) as _ by done.
  assert (∀ i line, (i = 0 ∨ i = 2 * h) →
                    (first :: rest) !! Z.to_nat i = Some line →
                    Forall (λ c, c = hash) line) as Hallhash.
  { intros i line Hi Hline. apply Forall_lookup. intros j c Hc.
    assert (Z.of_nat j < len line) as Hj
      by (unfold len; apply lookup_lt_Some in Hc; lia).
    rewrite (Hl line) in Hj by (by eapply list_elem_of_lookup_2).
    destruct (Hrows (Z.of_nat j)) as [H0 H2h]; [lia |].
    assert (char_at (first :: rest) i (Z.of_nat j) = Some hash) as Hchar
      by (by destruct Hi as [-> | ->]).
    rewrite (char_at_lookup _ _ _ line) in Hchar by (done || lia).
    rewrite Nat2Z.id in Hchar. congruence. }
  exists first, rest, lastl. split_and!; try done.
  - apply Forall_forall. intros line Hin. by rewrite Hlf, (Hl line Hin).
  - rewrite Hlen. rewrite Z.add_comm, Z.mul_comm, Z.mod_add by lia. done.
  - rewrite Hlen. rewrite Z.add_comm, Z.mul_comm, Z.div_add by lia. done.
  - rewrite Hlf. rewrite Z.add_comm, Z.mul_comm, Z.div_add by lia. done.
  - by apply (Hallhash 0); [left |].
  - rewrite Hlen. by replace (2 * h + 1 - 1) with (2 * h) by lia.
  - by apply (Hallhash (2 * h)); [right |].
  - apply Forall_lookup. intros i line Hline.
    apply check_line_Ok.
    assert (Z.of_nat i < len (first :: rest)) as Hi
      by (unfold len; apply lookup_lt_Some in Hline; lia).
    assert (len line = 2 * w + 1) as Hll
      by (apply Hl; by eapply list_elem_of_lookup_2).
    destruct (Hcols (Z.of_nat i)) as [Hc0 Hc2w]; [lia |].
    rewrite (char_at_lookup _ _ _ line) in Hc0
      by (rewrite ?Nat2Z.id; done || lia).
    rewrite (char_at_lookup _ _ _ line) in Hc2w
      by (rewrite ?Nat2Z.id; done || lia).
    split_and!; try done.
    + by rewrite head_lookup.
    + rewrite last_lookup. unfold len in Hll.
      by replace (pred (length line)) with (Z.to_nat (2 * w)) by lia.
    + by apply (proj1 (Forall_lookup _ _) Hchars i line).
Qed.

(** The converse: what the checks of [maze_reader] give. *)
Lemma checks_validated w input_lines first rest lastl :
  input_lines = first :: rest →
  len input_lines `mod` 2 = 1 →
  Forall (λ c, c = hash) first →
  input_lines !! Z.to_nat (len input_lines - 1) = Some lastl →
  Forall (λ c, c = hash) lastl →
  Forall (λ line, check_line w 0 line = Ok tt) input_lines →
  validated w (len input_lines `div` 2) input_lines.
Proof.
  intros Hlines Hodd Hfirst Hlast Hlasthash Hchecks.
  assert (∀ i line, input_lines !! i = Some line →
            len line = 2 * w + 1 ∧ head line = Some hash ∧
            last line = Some hash ∧ Forall (λ c, c = hash ∨ c = dot) line)
    as Hline.
  { intros i line Hi. apply (check_line_Ok w 0).
    by apply (proj1 (Forall_lookup _ _) Hchecks i line). }
  set (h := len input_lines `div` 2).
  assert (len input_lines = 2 * h + 1) as Hlen.
  { unfold h. pose proof (Z.div_mod (len input_lines) 2). lia. }
  assert (0 ≤ h) as Hh by (unfold h, len; apply Z.div_pos; lia).
  assert (0 ≤ w) as Hw.
  { destruct (Hline 0%nat first) as (Hl & _); [by rewrite Hlines |].
    unfold len in Hl. lia. }
  assert (input_lines !! Z.to_nat 0 = Some first) as H0 by (by rewrite Hlines).
  assert (∀ i j line, 0 ≤ i → 0 ≤ j ≤ 2 * w →
            input_lines !! Z.to_nat i = Some line →
            Forall (λ c, c = hash) line →
            char_at input_lines i j = Some hash) as Hhashline.
  { intros i j line Hi Hj Hl Hall.
    rewrite (char_at_lookup _ _ _ line) by (done || lia).
    destruct (Hline _ _ Hl) as (Hll & _). unfold len in Hll.
    destruct (lookup_lt_is_Some_2 line (Z.to_nat j)) as [c Hc]; [lia |].
    rewrite Hc. f_equal. by apply (proj1 (Forall_lookup _ _) Hall _ _ Hc). }
  split_and!; try done.
  - apply Forall_lookup. intros i line Hi. by destruct (Hline i line Hi).
  - apply Forall_lookup. intros i line Hi. by destruct (Hline i line Hi) as (_ & _ & _ & ?).
  - intros j Hj. split.
    + by apply (Hhashline 0 j first).
    + apply (Hhashline (2 * h) j lastl); try done; [lia |].
      rewrite <- Hlast. f_equal. lia.
  - intros i Hi.
    destruct (lookup_lt_is_Some_2 input_lines (Z.to_nat i)) as [line Hl];
      [unfold len in Hlen; lia |].
    destruct (Hline _ _ Hl) as (Hll & Hhead & Hlastc & _).
    rewrite !(char_at_lookup _ _ _ line) by (done || lia).
    split; [by rewrite <- head_lookup |].
    rewrite last_lookup in Hlastc. unfold len in Hll.
    by replace (Z.to_nat (2 * w)) with (pred (length line)) by lia.
Qed.

End validated_facts.

Section reader_cases.

Implicit Types (line : list ascii) (input_lines : list (list ascii)).

Lemma check_line_index w i i' line :
  check_line w i line = Ok tt → check_line w i' line = Ok tt.
Proof. rewrite !check_line_Ok. done. Qed.

(** [maze_reader] either rejects the text in its validation, with a
    [ValueError], or goes on to read the walls of a validated text. *)
Lemma maze_reader_unfold input_lines :
  let h := len input_lines `div` 2 in
  let w := len (default [] (head input_lines)) `div` 2 in
  (validated w h input_lines ∧
   maze_reader input_lines
   = except_IndexError something_wrong (read_walls w h input_lines)) ∨
  ((∀ w' h', ¬ validated w' h' input_lines) ∧
   ∃ msg, maze_reader input_lines = Raise (ValueError msg) ∧
          msg ≠ something_wrong).
Proof.
  intros h w. unfold maze_reader.
  destruct (decide (Z.of_nat (size (list_to_set (len <$> input_lines) : gset Z)) ≠ 1))
    as [Hsize | Hsize].
  { right. split; [| eexists; split; done].
    intros w' h' (first & rest & lastl & -> & Hall & _)%validated_checks.
    apply Hsize, one_line_length. eauto. }
  apply dec_stable, one_line_length in Hsize as (first & rest & Hlines & Hall).
  destruct (decide (len input_lines `mod` 2 ≠ 1)) as [Hodd | Hodd].
  { right. split; [| eexists; split; done].
    by intros w' h' (? & ? & ? & _ & _ & ? & _)%validated_checks. }
  apply dec_stable in Hodd.
  assert (index_at "list" input_lines 0 = Ok first) as Hfirst
    by (by rewrite Hlines).
  rewrite Hfirst. cbn [mbind result_bind].
  assert (w = len first `div` 2) as Hw by (unfold w; by rewrite Hlines).
  destruct (index_at_last "list" input_lines) as (lastl & Hlast & Hlastl);
    [by rewrite Hlines |].
  destruct (all_hash first) eqn:Hfh; cycle 1.
  { right. split; [| eexists; split; done].
    intros w' h' (first' & ? & ? & Heq & _ & _ & _ & _ & Hf & _)%validated_checks.
    rewrite Hlines in Heq. injection Heq as <- <-.
    apply all_hash_Forall in Hf. congruence. }
  rewrite Hlast. cbn [mbind result_bind].
  destruct (all_hash lastl) eqn:Hlh; cycle 1.
  { right. split; [| eexists; split; done].
    intros w' h' (? & ? & lastl' & _ & _ & _ & _ & _ & _ & Hl' & Hf & _)%validated_checks.
    assert (lastl' = lastl) as -> by congruence.
    apply all_hash_Forall in Hf. congruence. }
  cbn [negb]. fold h. rewrite <- Hw.
  apply all_hash_Forall in Hfh, Hlh.
  destruct (for_each (enumerate input_lines)
              (λ il _, check_line w il.1 il.2) tt) as [[] | e] eqn:Hchecks.
  - left.
    apply (for_each_checks (enumerate input_lines)
             (λ il, check_line w il.1 il.2)) in Hchecks.
    assert (Forall (λ line, check_line w 0 line = Ok tt) input_lines) as Hc.
    { apply (Forall_enumerate (λ line, check_line w 0 line = Ok tt)).
      eapply Forall_impl; [exact Hchecks |]. intros [i line]; simpl.
      apply check_line_index. }
    split; [| done].
    by apply (checks_validated w input_lines first rest lastl).
  - right. split.
    + intros w' h' Hval.
      pose proof (validated_checks _ _ _ Hval)
        as (first' & ? & ? & Heq & _ & _ & _ & Hw' & _ & _ & _ & Hc).
      rewrite Hlines in Heq. injection Heq as <- <-.
      assert (w' = w) as -> by congruence.
      assert (for_each (enumerate input_lines)
                (λ il _, check_line w il.1 il.2) tt = Ok tt) as Hok; [| congruence].
      apply (for_each_checks (enumerate input_lines)
               (λ il, check_line w il.1 il.2)).
      apply (Forall_enumerate (λ line, check_line w 0 line = Ok tt)) in Hc.
      eapply Forall_impl; [exact Hc |]. intros [i line]; simpl.
      apply check_line_index.
    + apply for_each_Raise in Hchecks as ([i line] & [] & _ & Hbody).
      apply check_line_Raise in Hbody as (msg & -> & Hmsg).
      exists msg. done.
Qed.

End reader_cases.

Section reading_phases.

Implicit Types (m : Maze) (input_lines : list (list ascii)).

Lemma vertical_row_total w h input_lines y m :
  validated w h input_lines → 0 ≤ y < h →
  ∃ m', vertical_row w h input_lines y m = Ok m'.
Proof.
  intros Hval Hy. unfold vertical_row.
  destruct (validated_char w h input_lines (2 * y + 1) 0 Hval)
    as (line & _ & Hline & _); [lia | destruct Hval; lia |].
  rewrite index_at_nonneg, Hline by lia. simpl.
  destruct (for_each_Ok (λ _, True) (vertical_cell h y line)
              (range (w + 1)) m) as (m' & Hloop & _); [done | | eauto].
  intros x m1 Hx%elem_of_range _.
  destruct (validated_char w h input_lines (2 * y + 1) (2 * x) Hval)
    as (line0 & c0 & Hline0 & Hc0 & _); [lia | lia |].
  assert (line0 = line) as -> by congruence.
  rewrite (vertical_cell_eq h y line x m1 c0) by (done || lia). eauto.
Qed.

(** The two loops, read to their end. *)
Lemma read_walls_Ok w h input_lines m :
  validated w h input_lines →
  read_walls w h input_lines = Ok m →
  (∀ y x, 0 ≤ y ≤ h → 0 ≤ x < w →
          char_at input_lines (2 * y) (2 * x) = Some hash) ∧
  ∃ m1,
    h_scanned w h input_lines (λ y x, y ∈ range (h + 1) ∧ x ∈ range w) m1 ∧
    v_scanned w h input_lines m1 (λ y x, y ∈ range h ∧ x ∈ range (w + 1)) m.
Proof.
  intros Hval. unfold read_walls.
  destruct (for_each (range (h + 1)) (horizontal_row w h input_lines) (init w h))
    as [m1 | e] eqn:Hh; simpl; [| done].
  intros Hv.
  apply (for_each_inv
           (λ dy m, h_scanned w h input_lines
                      (λ y x, y ∈ dy ∧ x ∈ range w) m ∧
                    ∀ y x, y ∈ dy → 0 ≤ x < w →
                           char_at input_lines (2 * y) (2 * x) = Some hash))
    in Hh.
  - destruct Hh as [Hscan Hinter]. split.
    { intros y x Hy Hx. apply Hinter; [| done]. apply elem_of_range. lia. }
    exists m1. split; [done |].
    assert (_width m1 = w ∧ _height m1 = h) as [Hw1 Hh1]
      by (destruct Hscan as [-> _]; done).
    apply (for_each_inv
             (λ dy m, v_scanned w h input_lines m1
                        (λ y x, y ∈ dy ∧ x ∈ range (w + 1)) m)) in Hv;
      [done | |].
    + split; [by destruct m1 |]. intros c. split; [by left |].
      by intros [? | (y & x & [[]%elem_of_nil _] & _)].
    + intros dy y s1 s2 Hy%elem_of_range Hs Hrow.
      destruct (vertical_row_Ok w h input_lines m1 _ y s1 Hval Hw1 Hh1
                  ltac:(lia) Hs) as (m' & Hrow' & Hs').
      assert (m' = s2) as -> by congruence.
      eapply v_scanned_ext; [| exact Hs']. intros y' x'. simpl.
      rewrite elem_of_app, list_elem_of_singleton. tauto.
  - split; [| by intros y x []%elem_of_nil].
    split; [done |]. intros c. split; [by left |].
    by intros [? | (y & x & [[]%elem_of_nil _] & _)].
  - intros dy y s1 s2 Hy%elem_of_range [Hs Hinter] Hrow.
    destruct (horizontal_row_Ok w h input_lines _ y s1 s2 Hval
                ltac:(lia) Hs Hrow) as [Hs' Hi'].
    split.
    + eapply h_scanned_ext; [| exact Hs']. intros y' x'. simpl.
      rewrite elem_of_app, list_elem_of_singleton. tauto.
    + intros y' x' [Hin | ->%list_elem_of_singleton]%elem_of_app Hx;
        [by apply Hinter | by apply Hi'].
Qed.

(** The two loops can only raise the intersection error. *)
Lemma read_walls_Raise w h input_lines e :
  validated w h input_lines →
  read_walls w h input_lines = Raise e →
  ∃ y x, (0 ≤ y ≤ h ∧ 0 ≤ x < w) ∧
         char_at input_lines (2 * y) (2 * x) ≠ Some hash ∧
         e = ValueError (intersection_message y x).
Proof.
  intros Hval. unfold read_walls.
  destruct (for_each (range (h + 1)) (horizontal_row w h input_lines) (init w h))
    as [m1 | e'] eqn:Hh; simpl.
  - intros (y & s1 & Hy%elem_of_range & Hrow)%for_each_Raise.
    destruct (vertical_row_total w h input_lines y s1 Hval) as [m' Hm'];
      [lia | congruence].
  - intros [= <-].
    apply for_each_Raise in Hh as (y & s1 & Hy%elem_of_range & Hrow).
    apply (horizontal_row_Raise w h) in Hrow as (x & Hx & Hne & ->);
      [| done | lia].
    exists y, x. split; [lia | done].
Qed.

(** With sound intersections the two loops are read to their end. *)
Lemma read_walls_total w h input_lines :
  well_formed w h input_lines → ∃ m, read_walls w h input_lines = Ok m.
Proof.
  intros [Hval Hinter].
  destruct (read_walls w h input_lines) as [m | e] eqn:Hread; [eauto |].
  apply (read_walls_Raise w h) in Hread as (y & x & [Hy Hx] & Hne & _);
    [| done].
  by destruct Hne; apply Hinter.
Qed.

End reading_phases.

Section reader_result.

Implicit Types (m : Maze) (input_lines : list (list ascii)).

(** The maze after both loops: its walls are where the text has '#'. *)
Lemma scanned_walls w h input_lines m1 m :
  validated w h input_lines →
  h_scanned w h input_lines (λ y x, y ∈ range (h + 1) ∧ x ∈ range w) m1 →
  v_scanned w h input_lines m1 (λ y x, y ∈ range h ∧ x ∈ range (w + 1)) m →
  (width m = w ∧ height m = h) ∧
  (path m = [] ∧
   exploration_data m = [("Step", "x-coordinate", "y-coordinate", "Actions")]) ∧
  (∀ x l, (x, l) ∈ h_walls m ↔
          (0 ≤ x ∧ x < w) ∧ (0 ≤ l ∧ l ≤ h) ∧
          char_at input_lines (2 * (h - l)) (2 * x + 1) = Some hash) ∧
  (∀ l y, (l, y) ∈ v_walls m ↔
          (0 ≤ y ∧ y < h) ∧ (0 ≤ l ∧ l ≤ w) ∧
          char_at input_lines (2 * (h - 1 - y) + 1) (2 * l) = Some hash).
Proof.
  intros Hval [Hm1 Hh] [Hm Hv].
  pose proof Hval as (Hw0 & Hh0 & _ & _ & _ & Hrows & Hcols).
  assert (h_walls m = h_walls m1) as Hhm by (by rewrite Hm).
  assert (v_walls m1 = v_walls (init w h)) as Hvm1 by (by rewrite Hm1).
  split_and!; try (by rewrite Hm, Hm1).
  - intros x l. rewrite Hhm, Hh, init_h_walls. split.
    + intros [(i & Hi & [[= -> ->] | [= -> ->]])
             | (y & x' & [Hy%elem_of_range Hx%elem_of_range] & _ & Hyr & Hc & [= -> ->])].
      * split_and!; try lia. replace (2 * (h - h)) with 0 by lia.
        apply Hrows. lia.
      * split_and!; try lia. replace (2 * (h - 0)) with (2 * h) by lia.
        apply Hrows. lia.
      * split_and!; try lia. by replace (2 * (h - (h - y))) with (2 * y) by lia.
    + intros (Hx & Hl & Hc).
      destruct (decide (l = h)) as [-> | ?]; [left; exists x; by auto |].
      destruct (decide (l = 0)) as [-> | ?]; [left; exists x; by auto |].
      right. exists (h - l), x. split_and!; try lia; try done.
      * apply elem_of_range. lia.
      * apply elem_of_range. lia.
      * f_equal. lia.
  - intros l y. rewrite Hv, Hvm1, init_v_walls. split.
    + intros [(j & Hj & [[= -> ->] | [= -> ->]])
             | (y' & x' & [Hy%elem_of_range Hx%elem_of_range] & Hyr & Hxr & Hc & [= -> ->])].
      * split_and!; try lia. apply Hcols. lia.
      * split_and!; try lia. replace (2 * 0) with 0 by lia. apply Hcols. lia.
      * split_and!; try lia.
        by replace (2 * (h - 1 - (h - y' - 1)) + 1) with (2 * y' + 1) by lia.
    + intros (Hy & Hl & Hc).
      destruct (decide (l = w)) as [-> | ?]; [left; exists y; by auto |].
      destruct (decide (l = 0)) as [-> | ?]; [left; exists y; by auto |].
      right. exists (h - 1 - y), l. split_and!; try lia; try done.
      * apply elem_of_range. lia.
      * apply elem_of_range. lia.
      * f_equal. lia.
Qed.

Lemma validated_unique w h w' h' input_lines :
  validated w h input_lines → validated w' h' input_lines →
  w' = w ∧ h' = h.
Proof.
  intros (first & ? & ? & Heq & _ & _ & Hh & Hw & _)%validated_checks
         (first' & ? & ? & Heq' & _ & _ & Hh' & Hw' & _)%validated_checks.
  rewrite Heq in Heq'. injection Heq' as <- <-. split; congruence.
Qed.

End reader_result.

(** What a returning [maze_reader] has read. *)
Lemma maze_reader_Ok_inv (input_lines : list (list ascii)) (m : Maze) :
  maze_reader input_lines = Ok m →
  let w := width m in
  let h := height m in
  well_formed w h input_lines ∧
  (path m = [] ∧
   exploration_data m = [("Step", "x-coordinate", "y-coordinate", "Actions")]) ∧
  (∀ x l, (x, l) ∈ h_walls m ↔
          (0 ≤ x ∧ x < w) ∧ (0 ≤ l ∧ l ≤ h) ∧
          char_at input_lines (2 * (h - l)) (2 * x + 1) = Some hash) ∧
  (∀ l y, (l, y) ∈ v_walls m ↔
          (0 ≤ y ∧ y < h) ∧ (0 ≤ l ∧ l ≤ w) ∧
          char_at input_lines (2 * (h - 1 - y) + 1) (2 * l) = Some hash).
Proof.
  intros Hread.
  destruct (maze_reader_unfold input_lines)
    as [[Hval Heq] | [_ (msg & Herr & _)]]; [| congruence].
  rewrite Heq in Hread.
  destruct (read_walls _ _ input_lines) as [m' | e] eqn:Hwalls;
    [| by destruct e].
  injection Hread as ->.
  apply (read_walls_Ok _ _ _ _ Hval) in Hwalls
    as (Hinter & m1 & Hscan1 & Hscan).
  destruct (scanned_walls _ _ _ _ _ Hval Hscan1 Hscan)
    as ([Hw Hh] & Hbuf & Hhw & Hvw).
  intros w h. subst w h. rewrite Hw, Hh. done.
Qed.

(** X16 (maze_runner.py, [maze_reader]): when the reader returns a maze
    for the stripped lines of a file, the text is well formed for the
    size of that maze (2 height + 1 lines of 2 width + 1 characters '#'
    or '.', outer lines all '#', every line between '#', every wall
    intersection '#'), the maze has an empty trace and only the header
    row, and its walls are exactly where the text has '#': the
    horizontal wall (x, line) corresponds to column 2x + 1 of text line
    2 (height - line), the vertical wall (line, y) to column 2 line of
    text line 2 (height - 1 - y) + 1, the text being read top down. *)
Theorem maze_reader_sound (input_lines : list (list ascii)) (m : Maze) :
  maze_reader input_lines = Ok m →
  let w := width m in
  let h := height m in
  well_formed w h input_lines ∧
  (path m = [] ∧
   exploration_data m = [("Step", "x-coordinate", "y-coordinate", "Actions")]) ∧
  (∀ x l, (x, l) ∈ h_walls m ↔
          (0 ≤ x ∧ x < w) ∧ (0 ≤ l ∧ l ≤ h) ∧
          char_at input_lines (2 * (h - l)) (2 * x + 1) = Some hash) ∧
  (∀ l y, (l, y) ∈ v_walls m ↔
          (0 ≤ y ∧ y < h) ∧ (0 ≤ l ∧ l ≤ w) ∧
          char_at input_lines (2 * (h - 1 - y) + 1) (2 * l) = Some hash).
Proof. apply maze_reader_Ok_inv. Qed.

Lemma maze_reader_sound_witness :
  ∃ m, maze_reader
         (lines_of ["#####"; "#...#"; "###.#"; "#.#.#"; "#####"]) = Ok m ∧
       (0, 1) ∈ h_walls m ∧ (1, 0) ∈ v_walls m ∧ (1, 1) ∉ h_walls m.
Proof.
  assert (∃ m, maze_reader
                 (lines_of ["#####"; "#...#"; "###.#"; "#.#.#"; "#####"])
               = Ok m ∧ width m = 2 ∧ height m = 2) as (m & Hread & Hw & Hh).
  { eexists. split; [vm_compute; reflexivity | done]. }
  destruct (maze_reader_sound _ m Hread) as (_ & _ & Hhw & Hvw).
  rewrite Hw, Hh in Hhw, Hvw.
  exists m. split; [exact Hread |]. rewrite !Hhw, Hvw.
  split_and!; try lia; try (vm_compute; reflexivity).
  intros (_ & _ & Hc). vm_compute in Hc. discriminate.
Defined.

(** X17 (maze_runner.py, [maze_reader]): the reader accepts exactly the
    well-formed texts: it returns a maze of width w and height h if and
    only if the text is well formed for w and h. *)
Theorem maze_reader_accepts_iff (w h : Z) (input_lines : list (list ascii)) :
  (∃ m, maze_reader input_lines = Ok m ∧ width m = w ∧ height m = h) ↔
  well_formed w h input_lines.
Proof.
  split.
  - intros (m & Hread & <- & <-). by apply maze_reader_Ok_inv in Hread as [? _].
  - intros Hwf. pose proof Hwf as [Hval _].
    destruct (maze_reader_unfold input_lines)
      as [[Hval' Heq] | [Hno _]]; [| by destruct (Hno w h)].
    destruct (validated_unique _ _ _ _ _ Hval Hval') as [Hw Hh].
    rewrite Hw, Hh in Heq.
    destruct (read_walls_total w h input_lines Hwf) as [m Hwalls].
    rewrite Hwalls in Heq. exists m. split; [done |].
    apply (read_walls_Ok _ _ _ _ Hval) in Hwalls as (_ & m1 & Hs1 & Hs).
    by destruct (scanned_walls _ _ _ _ _ Hval Hs1 Hs) as (? & _).
Qed.

(** X18 (maze_runner.py, [maze_reader]): whatever the lines, the reader
    raises nothing but [ValueError], and never the one its handler of
    [IndexError] would raise: after validation no index is out of range,
    so that handler is never entered.  A text without lines, or with two
    lines of different lengths, is rejected as missing a column. *)
Theorem maze_reader_errors (input_lines : list (list ascii)) :
  (∀ e, maze_reader input_lines = Raise e →
        ∃ msg, e = ValueError msg ∧ msg ≠ something_wrong) ∧
  (input_lines = [] ∨
   (∃ line1 line2, line1 ∈ input_lines ∧ line2 ∈ input_lines ∧
                   len line1 ≠ len line2) →
   maze_reader input_lines
   = Raise (ValueError "The maze file may be missing a column.")).
Proof.
  split.
  - intros e Hread.
    destruct (maze_reader_unfold input_lines)
      as [[Hval Heq] | [_ (msg & Herr & Hmsg)]].
    + rewrite Heq in Hread.
      destruct (read_walls _ _ input_lines) as [m' | e'] eqn:Hwalls;
        [done |].
      apply (read_walls_Raise _ _ _ _ Hval) in Hwalls as (y & x & _ & _ & ->).
      injection Hread as <-. eexists. split; [done |]. done.
    + rewrite Herr in Hread. injection Hread as <-. eauto.
  - intros Hbad. unfold maze_reader.
    destruct (decide (Z.of_nat (size (list_to_set (len <$> input_lines) : gset Z)) ≠ 1))
      as [| Hsize%dec_stable]; [done |].
    apply one_line_length in Hsize as (first & rest & -> & Hall).
    destruct Hbad as [| (line1 & line2 & H1 & H2 & Hne)]; [done |].
    destruct Hne.
    rewrite (proj1 (Forall_forall _ _) Hall line1 H1).
    by rewrite (proj1 (Forall_forall _ _) Hall line2 H2).
Qed.

Lemma maze_reader_errors_witness :
  maze_reader (lines_of ["###"; "#.#"; "##"])
  = Raise (ValueError "The maze file may be missing a column.").
Proof.
  apply (proj2 (maze_reader_errors (lines_of ["###"; "#.#"; "##"]))).
  right. exists (String.list_ascii_of_string "###"),
                (String.list_ascii_of_string "##").
  split_and!; [by left | by do 2 right; left | done].
Defined.

(** X19 (maze_runner.py, [maze_reader]): a text that passes the
    validation of its lines but has a character other than '#' at a wall
    intersection (an even column of an even line) is rejected with the
    [ValueError] that names such a place, as text line 2y + 1 and column
    2x + 1. *)
Theorem maze_reader_wrong_intersection (w h : Z)
    (input_lines : list (list ascii)) :
  validated w h input_lines →
  ¬ well_formed w h input_lines →
  ∃ y x, (0 ≤ y ≤ h ∧ 0 ≤ x < w) ∧
         char_at input_lines (2 * y) (2 * x) ≠ Some hash ∧
         maze_reader input_lines = Raise (ValueError (intersection_message y x)).
Proof.
  intros Hval Hnot.
  destruct (maze_reader_unfold input_lines)
    as [[Hval' Heq] | [Hno _]]; [| by destruct (Hno w h)].
  destruct (validated_unique _ _ _ _ _ Hval Hval') as [Hw Hh].
  rewrite Hw, Hh in Heq.
  destruct (read_walls w h input_lines) as [m | e] eqn:Hwalls.
  - apply (read_walls_Ok _ _ _ _ Hval) in Hwalls as (Hinter & _).
    by destruct Hnot.
  - apply (read_walls_Raise _ _ _ _ Hval) in Hwalls as (y & x & Hr & Hne & ->).
    exists y, x. done.
Qed.

Lemma maze_reader_wrong_intersection_witness :
  ∃ y x, maze_reader
           (lines_of ["#####"; "#...#"; "#..##"; "#.#.#"; "#####"])
         = Raise (ValueError (intersection_message y x)).
Proof.
  set (text := lines_of ["#####"; "#...#"; "#..##"; "#.#.#"; "#####"]).
  assert (Hval : validated 2 2 text).
  { unfold validated. split_and!; try lia; try done.
    - repeat constructor.
    - repeat (constructor; [repeat (constructor; [by (left + right) |]);
                            constructor |]); constructor.
    - intros j Hj.
      assert (j = 0 ∨ j = 1 ∨ j = 2 ∨ j = 3 ∨ j = 4)
        as [-> | [-> | [-> | [-> | ->]]]] by lia; by vm_compute.
    - intros i Hi.
      assert (i = 0 ∨ i = 1 ∨ i = 2 ∨ i = 3 ∨ i = 4)
        as [-> | [-> | [-> | [-> | ->]]]] by lia; by vm_compute. }
  assert (Hnot : ¬ well_formed 2 2 text).
  { intros [_ Hinter]. specialize (Hinter 1 1 ltac:(lia) ltac:(lia)).
    vm_compute in Hinter. discriminate. }
  destruct (maze_reader_wrong_intersection 2 2 text Hval Hnot)
    as (y & x & _ & _ & Hread).
  exists y, x. exact Hread.
Defined.

(** X20 (maze_runner.py [maze_reader] with maze.py [move]): a maze
    returned by the reader has its four boundary wall lines and no wall
    outside its grid lines; hence a runner placed on one of its cells is,
    whenever [move] returns, again on one of its cells. *)
Theorem read_maze_is_enclosed (input_lines : list (list ascii)) (m : Maze) :
  maze_reader input_lines = Ok m →
  boundary_walls (width m) (height m) m ∧
  (∀ x l, (x, l) ∈ h_walls m → 0 ≤ x < width m ∧ 0 ≤ l ≤ height m) ∧
  (∀ l y, (l, y) ∈ v_walls m → 0 ≤ l ≤ width m ∧ 0 ≤ y < height m) ∧
  (∀ r a m' r', in_bounds (width m) (height m) (position r) →
                move (m, r) = (Ok a, (m', r')) →
                in_bounds (width m) (height m) (position r')).
Proof.
  intros Hread.
  apply maze_reader_Ok_inv in Hread as ([Hval _] & _ & Hhw & Hvw).
  destruct Hval as (Hw0 & Hh0 & _ & _ & _ & Hrows & Hcols).
  assert (boundary_walls (width m) (height m) m) as Hb.
  { split.
    - intros i Hi. rewrite !Hhw.
      destruct (Hrows (2 * i + 1)) as [Htop Hbottom]; [lia |].
      replace (2 * (height m - 0)) with (2 * height m) by lia.
      replace (2 * (height m - height m)) with 0 by lia.
      split; (split_and!; try lia; done).
    - intros j Hj. rewrite !Hvw.
      destruct (Hcols (2 * (height m - 1 - j) + 1)) as [Hleft Hright]; [lia |].
      replace (2 * 0) with 0 by lia.
      split; (split_and!; try lia; done). }
  split_and!; [done | | |].
  - intros x l (? & ? & _)%Hhw. lia.
  - intros l y (? & ? & _)%Hvw. lia.
  - intros r a m' r' Hin Hmove. eapply open_step_in_bounds; [done | done |].
    by eapply move_Ok_open_step.
Qed.

Lemma read_maze_is_enclosed_witness :
  ∃ m, maze_reader (lines_of ["###"; "#.#"; "###"]) = Ok m ∧
       boundary_walls (width m) (height m) m.
Proof.
  assert (∃ m, maze_reader (lines_of ["###"; "#.#"; "###"]) = Ok m)
    as [m Hread] by (eexists; vm_compute; reflexivity).
  exists m. split; [exact Hread |].
  exact (proj1 (read_maze_is_enclosed _ m Hread)).
Defined.

(** X21 (maze.py, [explore]): in a maze that has its boundary walls, with
    the runner started on a cell of the grid, [explore] never returns
    normally for a goal outside the grid, however many iterations are
    allowed: the loop is still running, or the first move raised. *)
Theorem explore_goal_outside (w h : Z) (fuel : nat) (goal : coord)
    (m : Maze) (r : Runner) :
  boundary_walls w h m →
  in_bounds w h (position r) →
  ¬ in_bounds w h goal →
  ∀ actions w', explore fuel goal (m, r) ≠ Some (Ok actions, w').
Proof.
  intros Hb Hin Hout actions [m' r']. rewrite explore_eq.
  destruct (explore_loop fuel goal 0 "" (m, r))
    as [[[[num actions1] | e] [m1 r1]] |] eqn:Hloop; try done.
  intros _. apply Hout.
  apply explore_loop_Ok in Hloop
    as (t & _ & _ & _ & _ & _ & _ & _ & Hwalk & Hhead & _).
  pose proof (is_walk_in_bounds w h m _ _ Hb Hhead Hin Hwalk) as Hall.
  apply (proj1 (Forall_forall _ _) Hall). apply elem_of_app. right.
  by apply list_elem_of_singleton.
Qed.

Lemma explore_goal_outside_witness :
  explore 25 (2, 0) (init 2 2, create_runner 0 0 "N") = None.
Proof.
  assert (Hb : boundary_walls 2 2 (init 2 2)) by apply boundary_walls_init.
  assert (Hin : in_bounds 2 2 (position (create_runner 0 0 "N")))
    by (unfold in_bounds; simpl; lia).
  assert (Hout : ¬ in_bounds 2 2 (2, 0)) by (unfold in_bounds; simpl; lia).
  pose proof (explore_goal_outside 2 2 25 (2, 0) (init 2 2)
                (create_runner 0 0 "N") Hb Hin Hout) as Hnever.
  destruct (explore 25 (2, 0) (init 2 2, create_runner 0 0 "N"))
    as [[[actions | e] w'] |] eqn:Hrun.
  - by destruct (Hnever actions w').
  - vm_compute in Hrun. discriminate.
  - reflexivity.
Defined.

(** X22 (maze.py, [go_straight]): for a runner with a valid orientation,
    [go_straight] raises its [ValueError] exactly when the runner's cell
    has a wall on the side the runner faces, and then leaves the maze and
    the runner as they were; otherwise it returns with the runner one
    cell further in that direction, same heading, and the maze
    untouched. *)
Theorem go_straight_behaviour (m : Maze) (r : Runner) :
  orientation r ∈ orientations →
  (wall_toward m (position r) (orientation r) = true →
   go_straight (m, r) = (Raise (ValueError ""), (m, r))) ∧
  (wall_toward m (position r) (orientation r) = false →
   go_straight (m, r)
   = (Ok tt, (m, mkRunner (advance (orientation r) (position r)).1
                    (advance (orientation r) (position r)).2
                    (orientation r)))).
Proof.
  intros Hv. rewrite (go_straight_valid m r Hv). unfold position, get_x, get_y.
  split; intros ->; reflexivity.
Qed.

Lemma go_straight_behaviour_witness :
  go_straight (init 2 2, create_runner 0 0 "W")
  = (Raise (ValueError ""), (init 2 2, create_runner 0 0 "W")).
Proof.
  assert (Hv : orientation (create_runner 0 0 "W") ∈ orientations)
    by (apply orientation_cases; simpl; tauto).
  apply (proj1 (go_straight_behaviour (init 2 2) (create_runner 0 0 "W") Hv)).
  vm_compute. reflexivity.
Defined.

Section rotation.

Implicit Types (o : string) (walls : bool * bool * bool * bool).

Lemma rotate_turn_left o walls :
  o ∈ orientations →
  rotate (left_of o) walls
  = ((rotate o walls).2, (rotate o walls).1.1.1,
     (rotate o walls).1.1.2, (rotate o walls).1.2).
Proof.
  destruct walls as [[[north east] south] west].
  intros [-> | [-> | [-> | ->]]]%orientation_cases; reflexivity.
Qed.

Lemma rotate_turn_right o walls :
  o ∈ orientations →
  rotate (right_of o) walls
  = ((rotate o walls).1.1.2, (rotate o walls).1.2,
     (rotate o walls).2, (rotate o walls).1.1.1).
Proof.
  destruct walls as [[[north east] south] west].
  intros [-> | [-> | [-> | ->]]]%orientation_cases; reflexivity.
Qed.

End rotation.

(** X23 (maze.py [sense_walls] with runner.py [turn]): turning changes
    what is sensed by a rotation: after a left turn the runner has in
    front what it had on its left and on its right what it had in front;
    after a right turn it has in front what it had on its right and on
    its left what it had in front; after two left turns left and right
    are swapped and in front is what was behind. *)
Theorem sense_walls_after_turn (m : Maze) (r : Runner) (l f rt : bool) :
  sense_walls m r = Ok (l, f, rt) →
  (∃ rl, turn "Left" r = (Ok tt, rl) ∧
         sense_walls m rl = Ok (wall_behind m r, l, f)) ∧
  (∃ rr, turn "Right" r = (Ok tt, rr) ∧
         sense_walls m rr = Ok (f, rt, wall_behind m r)) ∧
  (∃ rb, (turn "Left";; turn "Left") r = (Ok tt, rb) ∧
         sense_walls m rb = Ok (rt, wall_behind m r, l)).
Proof.
  intros Hs. pose proof (sense_walls_Ok _ _ _ Hs) as Hv.
  pose proof (left_of_valid _ Hv) as Hvl.
  pose proof (left_of_valid _ Hvl) as Hvll.
  pose proof (right_of_valid _ Hv) as Hvr.
  rewrite (sense_walls_valid m r Hv) in Hs. unfold wall_behind.
  unfold get_x, get_y in *.
  set (walls := get_walls m (x r) (y r)) in *.
  split_and!.
  - exists (set_orientation (left_of (orientation r)) r).
    split; [by apply turn_left |].
    rewrite sense_walls_valid by done. unfold get_x, get_y. simpl. fold walls.
    rewrite rotate_turn_left by done.
    destruct (rotate (orientation r) walls) as [[[l' f'] rt'] b].
    by injection Hs as -> -> ->.
  - exists (set_orientation (right_of (orientation r)) r).
    split; [by apply turn_right |].
    rewrite sense_walls_valid by done. unfold get_x, get_y. simpl. fold walls.
    rewrite rotate_turn_right by done.
    destruct (rotate (orientation r) walls) as [[[l' f'] rt'] b].
    by injection Hs as -> -> ->.
  - exists (set_orientation (left_of (left_of (orientation r))) r).
    split.
    + unfold mbind, M_bind, bind. rewrite (turn_left r Hv).
      by rewrite turn_left.
    + rewrite sense_walls_valid by done. unfold get_x, get_y. simpl.
      fold walls. rewrite !rotate_turn_left by done.
      destruct (rotate (orientation r) walls) as [[[l' f'] rt'] b].
      by injection Hs as -> -> ->.
Qed.

Lemma sense_walls_after_turn_witness :
  ∃ rl, turn "Left" (create_runner 0 0 "N") = (Ok tt, rl) ∧
        sense_walls (init 2 2) rl
        = Ok (wall_behind (init 2 2) (create_runner 0 0 "N"), true, false).
Proof.
  assert (Hs : sense_walls (init 2 2) (create_runner 0 0 "N")
               = Ok (true, false, false)) by (vm_compute; reflexivity).
  exact (proj1 (sense_walls_after_turn _ _ _ _ _ Hs)).
Defined.
